(** * Speed test client and server: wire codec, transfer handlers, orchestration

    A shallow embedding of [Speed_Test_Server.py] and [Speed_Test_Client.py].

    Conventions of the embedding.
    - A Python [int] is a [Z]; a [bytes] object is a [list byte].
    - [struct.pack] and [struct.unpack] are partial: [None] stands for
      [struct.error].
    - A handler that talks to a socket is a function from what the socket
      delivers (the results of its successive [recv]/[recvfrom] calls, the
      readings of [time.time()]) to the calls it makes on the socket, in
      order, together with the exception that reached its [except] clause,
      if any.
    - [random.randint(0, 255)] is an oracle [rnd : nat -> byte] indexed by
      the number of draws made so far.
    - A [while True] loop around a blocking receive is a function of the
      finite list of receive results seen so far; when the list is used up
      the loop is blocked in the next receive ([Blocked]). *)

From Stdlib Require Import ZArith List Lia QArith Lqa Strings.Byte String.
From stdpp Require Import base option list gmap.
From Equations Require Import Equations.
Import ListNotations.

#[local] Open Scope Z_scope.

(** ** Python values shared by both programs *)

Inductive exn : Type :=
| StructError          (* struct.error *)
| SocketTimeout        (* socket.timeout *)
| SocketError          (* any other OSError raised by a socket call *)
| ValueError           (* int() on a non-number, or an explicit raise *)
| ConnectionError      (* raise ConnectionError(...) *)
| ZeroDivisionError
| EOFError.             (* input() at the end of its input *)

Inductive outcome (A : Type) : Type :=
| Returns (a : A)
| Raises (e : exn)
| Blocked.
Arguments Returns {A} a.
Arguments Raises {A} e.
Arguments Blocked {A}.

Definition outcome_bind {A B : Type} (m : outcome A) (k : A -> outcome B)
    : outcome B :=
  match m with
  | Returns a => k a
  | Raises e => Raises e
  | Blocked => Blocked
  end.

Record address : Type := mkAddress { host : string; port : Z }.

Definition len {A : Type} (l : list A) : Z := Z.of_nat (List.length l).

(** What one [recv(1024)] on a TCP socket produced; [Received []] is the
    empty read of a closed connection. *)
Inductive recv_result : Type :=
| Received (data : list byte)
| RecvRaises (e : exn).

(** What one [recvfrom] on a UDP socket produced. With a timeout set on
    the socket, [RecvfromRaises SocketTimeout] is a wait that ran out. *)
Inductive recvfrom_result : Type :=
| Datagram (data : list byte) (addr : address)
| RecvfromRaises (e : exn).

(** [range(n)] of Python, as the number of iterations it makes. *)
Definition range_count (n : Z) : nat := Z.to_nat n.

(** ** Wire codec: [struct] with the format strings the programs use *)

Module Wire.

Definition MAGIC_COOKIE : Z := 0xabcddcba.
Definition OFFER_MSG_TYPE : Z := 0x2.
Definition REQUEST_MSG_TYPE : Z := 0x3.
Definition PAYLOAD_MSG_TYPE : Z := 0x4.

Definition byte_to_Z (b : byte) : Z := Z.of_N (Byte.to_N b).

Definition byte_of_Z (z : Z) : byte :=
  match Byte.of_N (Z.to_N (z mod 256)) with
  | Some b => b
  | None => "000"%byte
  end.

(** Big-endian bytes of an unsigned value, most significant first. *)
Fixpoint be_bytes (n : nat) (v : Z) : list byte :=
  match n with
  | O => []
  | S k => byte_of_Z (Z.shiftr v (8 * Z.of_nat k)) :: be_bytes k v
  end.

Definition be_uint (l : list byte) : Z :=
  fold_left (fun acc b => acc * 256 + byte_to_Z b) l 0.

(** The signed char of format [b]. *)
Definition be_sint8 (b : byte) : Z :=
  let v := byte_to_Z b in if v <? 128 then v else v - 256.

Definition pack_unsigned (n : nat) (v : Z) : option (list byte) :=
  if (0 <=? v) && (v <? 2 ^ (8 * Z.of_nat n)) then Some (be_bytes n v) else None.

Definition pack_b (v : Z) : option (list byte) :=
  if (-128 <=? v) && (v <? 128) then Some [byte_of_Z v] else None.

(** [struct.pack('!IbHH', a, b, c, d)] *)
Definition pack_IbHH (a b c d : Z) : option (list byte) :=
  ba ← pack_unsigned 4 a; bb ← pack_b b;
  bc ← pack_unsigned 2 c; bd ← pack_unsigned 2 d;
  Some (ba ++ bb ++ bc ++ bd).

(** [struct.pack('!IbQ', a, b, c)] *)
Definition pack_IbQ (a b c : Z) : option (list byte) :=
  ba ← pack_unsigned 4 a; bb ← pack_b b; bc ← pack_unsigned 8 c;
  Some (ba ++ bb ++ bc).

(** [struct.pack('!IbQQ', a, b, c, d)] *)
Definition pack_IbQQ (a b c d : Z) : option (list byte) :=
  ba ← pack_unsigned 4 a; bb ← pack_b b;
  bc ← pack_unsigned 8 c; bd ← pack_unsigned 8 d;
  Some (ba ++ bb ++ bc ++ bd).

(** The slice [data[i:j]]. *)
Definition slice (i j : nat) (data : list byte) : list byte :=
  firstn (j - i) (skipn i data).

Definition sint8_at (i : nat) (data : list byte) : Z :=
  be_sint8 (nth i data "000"%byte).

(** [struct.unpack('!IbHH', data)]: the buffer must have exactly 9 bytes. *)
Definition unpack_IbHH (data : list byte) : option (Z * Z * Z * Z) :=
  if Nat.eqb (List.length data) 9
  then Some (be_uint (slice 0 4 data), sint8_at 4 data,
             be_uint (slice 5 7 data), be_uint (slice 7 9 data))
  else None.

(** [struct.unpack('!IbQ', data)]: exactly 13 bytes. *)
Definition unpack_IbQ (data : list byte) : option (Z * Z * Z) :=
  if Nat.eqb (List.length data) 13
  then Some (be_uint (slice 0 4 data), sint8_at 4 data,
             be_uint (slice 5 13 data))
  else None.

(** [struct.unpack('!IbQQ', data)]: exactly 21 bytes. *)
Definition unpack_IbQQ (data : list byte) : option (Z * Z * Z * Z) :=
  if Nat.eqb (List.length data) 21
  then Some (be_uint (slice 0 4 data), sint8_at 4 data,
             be_uint (slice 5 13 data), be_uint (slice 13 21 data))
  else None.

End Wire.

(** [bytes([random.randint(0, 255) for _ in range(n)])], starting at draw
    number [drawn]. *)
Definition random_bytes (rnd : nat -> byte) (drawn : nat) (n : Z) : list byte :=
  List.map rnd (List.seq drawn (range_count n)).

(** ** The server *)

Module Server.
Import Wire.

Record sendto_call : Type := mkSendto { packet : list byte; dest : address }.

(** What a handler did: the socket calls it made, and the exception its
    [except Exception] clause caught and printed, if one was raised. *)
Record run (call : Type) : Type :=
  mkRun { calls : list call; caught : option exn }.
Arguments mkRun {call} calls caught.
Arguments calls {call} r.
Arguments caught {call} r.

(** The body of [for segment_num in range(total_segments)] in
    [_handle_udp_client], for the [n] iterations that remain. *)
Fixpoint send_segments (rnd : nat -> byte) (addr : address)
    (file_size segment_size total_segments : Z)
    (n : nat) (segment_num : Z) (drawn : nat) : run sendto_call :=
  match n with
  | O => mkRun [] None
  | S n' =>
      let remaining := file_size - segment_num * segment_size in
      let curr_segment_size := Z.min segment_size remaining in
      let payload := random_bytes rnd drawn curr_segment_size in
      match pack_IbQQ MAGIC_COOKIE PAYLOAD_MSG_TYPE total_segments segment_num with
      | None => mkRun [] (Some StructError)
      | Some header =>
          let r := send_segments rnd addr file_size segment_size total_segments
                     n' (segment_num + 1) (drawn + List.length payload) in
          mkRun (mkSendto (header ++ payload) addr :: calls r) (caught r)
      end
  end.

(** [_handle_udp_client(addr, file_size)] *)
Definition handle_udp_client (rnd : nat -> byte) (addr : address)
    (file_size : Z) : run sendto_call :=
  let segment_size := 1024 in
  let total_segments := (file_size + segment_size - 1) / segment_size in
  send_segments rnd addr file_size segment_size total_segments
    (range_count total_segments) 0 0.

(** The payload a datagram carries after its 21-byte header. *)
Definition payload_of (c : sendto_call) : list byte := skipn 21 (packet c).

(** *** TCP connections *)

Inductive tcp_call : Type :=
| Send (data : list byte)    (* client.send(data) *)
| Close.                     (* client.close() *)

(** The [while sent < file_size] loop of [_handle_tcp_client]; it ends
    because each pass adds [min(1024, remaining) >= 1] to [sent]. *)
Definition chunk_size : Z := 1024.

Equations? send_loop (rnd : nat -> byte) (file_size sent : Z) (drawn : nat)
    : list tcp_call by wf (Z.to_nat (file_size - sent)) lt :=
  send_loop rnd file_size sent drawn with Z_lt_dec sent file_size := {
    | left Hlt =>
        let remaining := file_size - sent in
        let chunk := Z.min chunk_size remaining in
        let data := random_bytes rnd drawn chunk in
        Send data :: send_loop rnd file_size (sent + chunk) (drawn + List.length data);
    | right _ => [] }.
Proof. subst chunk remaining. unfold chunk_size. lia. Qed.

Section TcpHandler.

(** [int(data.decode().strip())] is Python's own: [None] is the
    [ValueError] it raises ([UnicodeDecodeError] is a [ValueError] too). *)
Variable int_of_request : list byte -> option Z.
Variable rnd : nat -> byte.

(** The [try] block of [_handle_tcp_client], given what [client.recv(1024)]
    produced. *)
Definition tcp_client_body (received : recv_result) : run tcp_call :=
  match received with
  | RecvRaises e => mkRun [] (Some e)
  | Received data =>
      match data with
      | [] => mkRun [] (Some ConnectionError)
      | _ :: _ =>
          match int_of_request data with
          | None => mkRun [] (Some ValueError)
          | Some file_size =>
              if file_size <=? 0 then mkRun [] (Some ValueError)
              else mkRun (send_loop rnd file_size 0 0) None
          end
      end
  end.

(** [_handle_tcp_client(client, addr)]: the body, then [finally:
    client.close()]. *)
Definition handle_tcp_client (received : recv_result) : run tcp_call :=
  let r := tcp_client_body received in
  mkRun (calls r ++ [Close]) (caught r).

End TcpHandler.

(** *** UDP requests *)

Inductive udp_server_action : Type :=
| SpawnUdpClient (addr : address) (file_size : Z)
| PrintNetworkError
| PrintEmptyPacket
| PrintInvalidFormat
| PrintHandlingError.

(** One pass of the [while True] loop of [_handle_udp_requests]. *)
Definition udp_request_pass (r : recvfrom_result) : list udp_server_action :=
  match r with
  | RecvfromRaises _ => [PrintNetworkError]
  | Datagram data addr =>
      match data with
      | [] => [PrintEmptyPacket]
      | _ :: _ =>
          if 13 <=? len data then
            match unpack_IbQ (slice 0 13 data) with
            | None => [PrintHandlingError]
            | Some (magic, msg_type, file_size) =>
                if (magic =? MAGIC_COOKIE) && (msg_type =? REQUEST_MSG_TYPE)
                then [SpawnUdpClient addr file_size]
                else [PrintInvalidFormat]
            end
          else []
      end
  end.

(** [_handle_udp_requests()] on the datagrams received so far. *)
Fixpoint handle_udp_requests (evs : list recvfrom_result) : list udp_server_action :=
  match evs with
  | [] => []
  | r :: rest => udp_request_pass r ++ handle_udp_requests rest
  end.

Definition spawned (acts : list udp_server_action) : list (address * Z) :=
  omap (fun a => match a with SpawnUdpClient addr n => Some (addr, n) | _ => None end) acts.

(** *** Offers *)

Inductive broadcast_action : Type :=
| BroadcastSendto (offer_message : list byte) (dest : address)
| SleepOneSecond
| PrintBroadcastError.

(** One pass of the [while True] loop of [_broadcast_offers]: the offer
    is packed and handed to [sendto], which returns ([sendto_ok]) or
    raises; either way the pass ends in [time.sleep(1)]. *)
Definition broadcast_pass (udp_port tcp_port : Z) (sendto_ok : bool)
    : list broadcast_action :=
  match pack_IbHH MAGIC_COOKIE OFFER_MSG_TYPE udp_port tcp_port with
  | None => [PrintBroadcastError; SleepOneSecond]
  | Some offer_message =>
      if sendto_ok
      then [BroadcastSendto offer_message (mkAddress "<broadcast>" 13117);
            SleepOneSecond]
      else [PrintBroadcastError; SleepOneSecond]
  end.

(** [_broadcast_offers()] over the passes made so far. *)
Fixpoint broadcast_offers (udp_port tcp_port : Z) (sendto_oks : list bool)
    : list broadcast_action :=
  match sendto_oks with
  | [] => []
  | ok :: rest =>
      broadcast_pass udp_port tcp_port ok ++ broadcast_offers udp_port tcp_port rest
  end.

End Server.

(** ** The client *)

Module Client.
Import Wire.

(** Python's [a / b] on numbers, with exact rationals for floats. *)
Definition truediv (a b : Q) : outcome Q :=
  if Qeq_bool b 0 then Raises ZeroDivisionError else Returns (a / b)%Q.

#[local] Notation "'do' x <- m ; k" := (outcome_bind m (fun x => k))
  (at level 10, x name, m at level 100, k at level 200).

(** *** Discovery *)

(** [_wait_for_offer()]: the socket has a 10 second timeout, so each
    [recvfrom] either delivers a datagram or raises [socket.timeout] after
    10 seconds; whatever is raised inside the loop is printed by its
    [except Exception] clause and the loop goes round again. *)
Fixpoint wait_for_offer (evs : list recvfrom_result) : outcome (string * (Z * Z)) :=
  match evs with
  | [] => Blocked
  | RecvfromRaises _ :: rest => wait_for_offer rest
  | Datagram data addr :: rest =>
      if 9 <=? len data then
        match unpack_IbHH (slice 0 9 data) with
        | None => wait_for_offer rest
        | Some (magic, msg_type, udp_port, tcp_port) =>
            if (magic =? MAGIC_COOKIE) && (msg_type =? OFFER_MSG_TYPE)
            then Returns (host addr, (udp_port, tcp_port))
            else wait_for_offer rest
        end
      else wait_for_offer rest
  end.

(** *** TCP transfer *)

(** The [while bytes_received < file_size] loop of [_tcp_transfer]: the
    value of [bytes_received] when the loop is left. *)
Fixpoint tcp_receive (file_size bytes_received : Z) (chunks : list recv_result)
    : outcome Z :=
  if bytes_received <? file_size then
    match chunks with
    | [] => Blocked
    | RecvRaises e :: _ => Raises e
    | Received chunk :: rest =>
        match chunk with
        | [] => Returns bytes_received
        | _ :: _ => tcp_receive file_size (bytes_received + len chunk) rest
        end
    end
  else Returns bytes_received.

Record tcp_report : Type :=
  mkTcpReport { tcp_transfer_num : Z; tcp_duration : Q; tcp_speed : Q }.

(** [_tcp_transfer], from the request onwards, on a connected socket:
    [start_time] and [end_time] are the two readings of [time.time()].
    [Raises e] means that [e] reached the [except Exception] clause, which
    prints an error instead of a report. The division is the exact one:
    the [OverflowError] of turning a [file_size * 8] of 2^1024 or more
    into a float is not part of this model. *)
Definition tcp_transfer (file_size transfer_num : Z) (start_time : Q)
    (chunks : list recv_result) (end_time : Q) : outcome tcp_report :=
  do bytes_received <- tcp_receive file_size 0 chunks;
  let duration := (end_time - start_time)%Q in
  do speed <- truediv (inject_Z (file_size * 8)) duration;
  Returns (mkTcpReport transfer_num duration speed).

(** *** UDP transfer *)

Record udp_state : Type := mkUdpState {
  bytes_received : Z;
  segments_received : gset Z;
  total_segments : option Z;
  last_packet_time : Q }.

(** What one pass of the receive loop meets: the clock at the top of the
    loop, the result of [recvfrom] (under a 1 second timeout), and the
    clock right after a datagram was returned. *)
Record pass_env : Type := mkPass {
  now : Q;
  received : recvfrom_result;
  stamp : Q }.

Inductive loop_ctl : Type :=
| Break
| Continue (st : udp_state)
| Abort (e : exn).

Definition set_last_packet_time (st : udp_state) (t : Q) : udp_state :=
  mkUdpState (bytes_received st) (segments_received st) (total_segments st) t.

Definition learn_total (st : udp_state) (total_segs : Z) : udp_state :=
  match total_segments st with
  | None => mkUdpState (bytes_received st) (segments_received st)
              (Some total_segs) (last_packet_time st)
  | Some _ => st
  end.

Definition count_segment (st : udp_state) (seg_num : Z) (payload : list byte)
    : udp_state :=
  if decide (seg_num ∈ segments_received st) then st
  else mkUdpState (bytes_received st + len payload)
         ({[seg_num]} ∪ segments_received st)
         (total_segments st) (last_packet_time st).

(** One pass of the [while True] loop of [_udp_transfer]. *)
Definition udp_pass (st : udp_state) (p : pass_env) : loop_ctl :=
  if negb (Qle_bool (now p - last_packet_time st) 1) then Break
  else
    match received p with
    | RecvfromRaises SocketTimeout => Continue st
    | RecvfromRaises e => Abort e
    | Datagram data _ =>
        let st := set_last_packet_time st (stamp p) in
        if len data <? 21 then Continue st
        else
          match unpack_IbQQ (slice 0 21 data) with
          | None => Abort StructError
          | Some (magic, msg_type, total_segs, seg_num) =>
              if negb (magic =? MAGIC_COOKIE) || negb (msg_type =? PAYLOAD_MSG_TYPE)
              then Continue st
              else
                let payload := skipn 21 data in
                let st := learn_total st total_segs in
                Continue (count_segment st seg_num payload)
          end
    end.

(** The receive loop on the passes made so far: the state when the loop
    is left through [break], or the exception that left it. *)
Fixpoint udp_receive (st : udp_state) (ps : list pass_env) : outcome udp_state :=
  match ps with
  | [] => Blocked
  | p :: rest =>
      match udp_pass st p with
      | Break => Returns st
      | Continue st' => udp_receive st' rest
      | Abort e => Raises e
      end
  end.

(** [len(segments_received) / total_segments * 100 if total_segments else 0] *)
Definition success_rate (segments : gset Z) (total : option Z) : outcome Q :=
  match total with
  | None => Returns 0%Q
  | Some t =>
      if t =? 0 then Returns 0%Q
      else do q <- truediv (inject_Z (Z.of_nat (size segments))) (inject_Z t);
           Returns (q * 100)%Q
  end.

Record udp_report : Type := mkUdpReport {
  udp_transfer_num : Z;
  udp_duration : Q;
  udp_speed : Q;             (* Mbps *)
  udp_success_rate : Q }.

Definition initial_state (t : Q) : udp_state := mkUdpState 0 ∅ None t.

(** What the receive loop leaves behind when it ends through [break]. *)
Definition udp_summary (transfer_num : Z) (start_time end_time : Q)
    (st : udp_state) : outcome udp_report :=
  let duration := (end_time - start_time)%Q in
  do speed <- truediv (inject_Z (bytes_received st * 8)) (duration * 1000000)%Q;
  do rate <- success_rate (segments_received st) (total_segments st);
  Returns (mkUdpReport transfer_num duration speed rate).

(** [_udp_transfer]: [start_time], [first_time] and [end_time] are the
    readings of [time.time()] outside the loop. [Raises e] means that [e]
    reached the [except Exception] clause. *)
Definition udp_transfer (file_size transfer_num : Z) (start_time first_time : Q)
    (ps : list pass_env) (end_time : Q) : outcome udp_report :=
  match pack_IbQ MAGIC_COOKIE REQUEST_MSG_TYPE file_size with
  | None => Raises StructError
  | Some request =>
      do st <- udp_receive (initial_state first_time) ps;
      udp_summary transfer_num start_time end_time st
  end.

(** *** Orchestration *)

Inductive transfer_kind : Type := TcpTransfer | UdpTransfer.

(** A thread made by [threading.Thread(target=..., args=(server_ip, port,
    file_size, i + 1))]. *)
Record task : Type := mkTask {
  kind : transfer_kind;
  server_ip : string;
  server_port : Z;
  size_requested : Z;
  transfer_num : Z }.

(** What the main thread does to its threads, in program order. *)
Inductive main_op : Type :=
| ThreadStart (t : task)
| ThreadJoin (i : nat).       (* join of threads[i] *)

Definition tasks_for (k : transfer_kind) (server_ip : string) (server_port : Z)
    (file_size count : Z) : list task :=
  List.map (fun i => mkTask k server_ip server_port file_size (Z.of_nat i + 1))
    (List.seq 0 (range_count count)).

(** The list [threads] that [_run_speed_test] builds; [server_ports] is
    [(udp_port, tcp_port)]. *)
Definition threads_of (server_ip : string) (server_ports : Z * Z)
    (file_size tcp_count udp_count : Z) : list task :=
  tasks_for TcpTransfer server_ip (snd server_ports) file_size tcp_count
  ++ tasks_for UdpTransfer server_ip (fst server_ports) file_size udp_count.

(** [_run_speed_test]: each thread is started as it is made, then every
    element of [threads] is joined in order. *)
Definition run_speed_test (server_ip : string) (server_ports : Z * Z)
    (file_size tcp_count udp_count : Z) : list main_op :=
  let threads := threads_of server_ip server_ports file_size tcp_count udp_count in
  List.map ThreadStart threads
  ++ List.map ThreadJoin (List.seq 0 (List.length threads)).

(** Threads as [threading] has them: a started thread runs until its
    target returns; [join] returns once the thread has finished. The
    targets [_tcp_transfer] and [_udp_transfer] catch what they raise, so a
    thread finishes whether its transfer succeeded or not. *)
Inductive thread_status : Type :=
| Running
| Finished (succeeded : bool).

Record machine : Type := mkMachine {
  pc : list main_op;                    (* what the main thread still has to do *)
  pool : list (task * thread_status) }.

Inductive step : machine -> machine -> Prop :=
| step_start t rest pl :
    step (mkMachine (ThreadStart t :: rest) pl)
         (mkMachine rest (pl ++ [(t, Running)]))
| step_finish ops pl i t ok :
    pl !! i = Some (t, Running) ->
    step (mkMachine ops pl) (mkMachine ops (<[i := (t, Finished ok)]> pl))
| step_join i rest pl t ok :
    pl !! i = Some (t, Finished ok) ->
    step (mkMachine (ThreadJoin i :: rest) pl) (mkMachine rest pl).

Definition is_finished (e : task * thread_status) : bool :=
  match snd e with Finished _ => true | Running => false end.

Definition is_running (e : task * thread_status) : bool :=
  match snd e with Running => true | Finished _ => false end.

(** *** The request line *)

Definition digit (d : Z) : byte := byte_of_Z (48 + d).

(** The decimal digits of [n >= 0], most significant first, in front of
    [acc]. *)
Equations? decimal_digits (n : Z) (acc : list byte) : list byte
    by wf (Z.to_nat n) lt :=
  decimal_digits n acc with Z_lt_dec n 10 := {
    | left _ => digit n :: acc;
    | right Hge => decimal_digits (n / 10) (digit (n mod 10) :: acc) }.
Proof. apply Z2Nat.inj_lt; [apply Z.div_pos; lia | lia |]. apply Z.div_lt; lia. Qed.

(** [str(n)] for an [int]. *)
Definition str_of_int (n : Z) : list byte :=
  if n <? 0 then "-"%byte :: decimal_digits (- n) [] else decimal_digits n [].

(** [f"{file_size}\n".encode()], what [_tcp_transfer] sends after connecting. *)
Definition request_line (file_size : Z) : list byte :=
  str_of_int file_size ++ ["010"%byte].

(** *** Configuration *)



(** *** One round of [start] *)

(** The body of the [while True] loop of [start], up to the threads it
    makes: the offer is waited for, then the speed test is run against
    the server that sent it. *)
Definition discovery_round (file_size tcp_count udp_count : Z)
    (evs : list recvfrom_result) : outcome (list main_op) :=
  do offer <- wait_for_offer evs;
  let (server_ip, server_ports) := offer in
  Returns (run_speed_test server_ip server_ports file_size tcp_count udp_count).

End Client.

(** * Properties *)

Import Wire Server Client.

(** [ceil(a / b)] for a positive [b]. *)
Definition ceil_div (a b : Z) : Z := - ((- a) / b).

Definition sum_Z (l : list Z) : Z := fold_right Z.add 0 l.

(** The bytes handed to [send] over a whole run. *)
Definition bytes_sent (cs : list tcp_call) : Z :=
  sum_Z (List.map (fun c => match c with Send d => len d | Close => 0 end) cs).

(** The requests [_handle_tcp_client] turns down. *)
Inductive invalid_request (int_of_request : list byte -> option Z)
    : recv_result -> Prop :=
| empty_read : invalid_request int_of_request (Received [])
| not_a_number data :
    int_of_request data = None ->
    invalid_request int_of_request (Received data)
| not_positive data n :
    int_of_request data = Some n -> n <= 0 ->
    invalid_request int_of_request (Received data).

(** [int(data.decode().strip())] on requests made of ASCII bytes, for
    running the handler on concrete requests: white space is stripped at
    both ends, then come an optional sign and decimal digits, where single
    underscores may separate digits. A request with a byte above 127 is
    outside this instance and is given [None]. *)
Definition is_space (b : byte) : bool :=
  let v := byte_to_Z b in
  ((9 <=? v) && (v <=? 13)) || ((28 <=? v) && (v <=? 32)).

Definition is_digit (b : byte) : bool :=
  let v := byte_to_Z b in (48 <=? v) && (v <=? 57).

Fixpoint lstrip (data : list byte) : list byte :=
  match data with
  | b :: rest => if is_space b then lstrip rest else data
  | [] => []
  end.

Definition strip (data : list byte) : list byte :=
  rev (lstrip (rev (lstrip data))).

(** The value of a run of digits; [after_digit] tells whether the byte
    before was a digit, which is where an underscore or the end may come. *)
Fixpoint digits_value (acc : Z) (after_digit : bool) (data : list byte)
    : option Z :=
  match data with
  | [] => if after_digit then Some acc else None
  | b :: rest =>
      if is_digit b then digits_value (acc * 10 + (byte_to_Z b - 48)) true rest
      else if (byte_to_Z b =? 95) && after_digit then digits_value acc false rest
      else None
  end.

Definition ascii_int_of_request (data : list byte) : option Z :=
  match strip data with
  | [] => None
  | b :: rest =>
      if byte_to_Z b =? 45 then Z.opp <$> digits_value 0 false rest
      else if byte_to_Z b =? 43 then digits_value 0 false rest
      else digits_value 0 false (b :: rest)
  end.

Definition is_sendto (a : broadcast_action) : bool :=
  match a with BroadcastSendto _ _ => true | _ => false end.

Definition is_sleep (a : broadcast_action) : bool :=
  match a with SleepOneSecond => true | _ => false end.



(** The header fields as the wire format lays them out: the u32 magic
    cookie in bytes 0..3 and the type in byte 4. *)
Definition magic_field (data : list byte) : Z := be_uint (slice 0 4 data).
Definition type_byte (data : list byte) : Z := byte_to_Z (nth 4 data "000"%byte).

(** A buffer that is not a message of the expected kind: too short for
    the header, or the wrong magic cookie, or the wrong type byte. *)
Definition malformed (header_len expected_type : Z) (data : list byte) : Prop :=
  len data < header_len \/
  magic_field data <> MAGIC_COOKIE \/
  type_byte data <> expected_type.

Definition well_formed (header_len expected_type : Z) (data : list byte) : bool :=
  (header_len <=? len data) && (magic_field data =? MAGIC_COOKIE)
  && (type_byte data =? expected_type).

(** The Offer a received datagram carries, if it is one. *)
Definition offer_of (r : recvfrom_result) : option (string * (Z * Z)) :=
  match r with
  | Datagram data addr =>
      if well_formed 9 OFFER_MSG_TYPE data
      then Some (host addr, (be_uint (slice 5 7 data), be_uint (slice 7 9 data)))
      else None
  | RecvfromRaises _ => None
  end.

Definition offers (evs : list recvfrom_result) : list (string * (Z * Z)) :=
  omap offer_of evs.

(** The Request a received datagram carries, if it is one. *)
Definition request_of (r : recvfrom_result) : option (address * Z) :=
  match r with
  | Datagram data addr =>
      if well_formed 13 REQUEST_MSG_TYPE data
      then Some (addr, be_uint (slice 5 13 data))
      else None
  | RecvfromRaises _ => None
  end.

(** The fields of a Payload datagram, if it is one:
    (totalSegments, segmentNumber, payload). *)
Definition segment_of (data : list byte) : option (Z * Z * list byte) :=
  if well_formed 21 PAYLOAD_MSG_TYPE data
  then Some (be_uint (slice 5 13 data), be_uint (slice 13 21 data), skipn 21 data)
  else None.

(** The Payload segments among the datagrams of a list of passes. *)
Definition segment_in (p : pass_env) : option (Z * Z * list byte) :=
  match received p with
  | Datagram data _ => segment_of data
  | RecvfromRaises _ => None
  end.

Definition segments_in (ps : list pass_env) : list (Z * Z * list byte) :=
  omap segment_in ps.

(** The time of the most recent arrival after a pass: the stamp of its
    datagram, whatever it holds, or the previous one when none came. *)
Definition arrival (last : Q) (p : pass_env) : Q :=
  match received p with
  | Datagram _ _ => stamp p
  | RecvfromRaises _ => last
  end.

(** The first pass at whose start the clock is more than one second past
    the most recent arrival. Nothing but clock readings and the fact of an
    arrival enters. *)
Fixpoint first_quiet_pass (last : Q) (ps : list pass_env) : option nat :=
  match ps with
  | [] => None
  | p :: rest =>
      if Qle_bool (now p - last) 1
      then option_map S (first_quiet_pass (arrival last p) rest)
      else Some O
  end.

(** How the receive loop is left: at a quiet pass, or at a pass whose
    [recvfrom] raised something other than [socket.timeout]. *)
Inductive loop_exit : Type :=
| QuietAt (k : nat)
| ErrorAt (k : nat) (e : exn).

Definition later (x : option loop_exit) : option loop_exit :=
  match x with
  | Some (QuietAt k) => Some (QuietAt (S k))
  | Some (ErrorAt k e) => Some (ErrorAt (S k) e)
  | None => None
  end.

Definition is_timeout (e : exn) : bool :=
  match e with SocketTimeout => true | _ => false end.

(** The first pass at which the loop is left, read off the clock readings
    and the results of [recvfrom] alone: the first pass that starts more
    than one second after the most recent arrival, unless a pass before it
    met a socket error. The content of the datagrams does not enter. *)
Fixpoint first_exit (last : Q) (ps : list pass_env) : option loop_exit :=
  match ps with
  | [] => None
  | p :: rest =>
      if Qle_bool (now p - last) 1 then
        match received p with
        | Datagram _ _ => later (first_exit (stamp p) rest)
        | RecvfromRaises e =>
            if is_timeout e then later (first_exit last rest)
            else Some (ErrorAt O e)
        end
      else Some (QuietAt O)
  end.

(** Every [recvfrom] of the run delivered a datagram or timed out. *)
Definition no_socket_error (ps : list pass_env) : Prop :=
  Forall (fun p => forall e, received p = RecvfromRaises e -> e = SocketTimeout) ps.

(** The state of the receive loop after it went through all of [ps];
    [None] when it left the loop at one of them. *)
Fixpoint udp_state_after (st : udp_state) (ps : list pass_env) : option udp_state :=
  match ps with
  | [] => Some st
  | p :: rest =>
      match udp_pass st p with
      | Continue st' => udp_state_after st' rest
      | Break | Abort _ => None
      end
  end.

(** The time of the most recent arrival after the passes [ps]. *)
Definition last_arrival (last : Q) (ps : list pass_env) : Q :=
  fold_left arrival ps last.

(** The segment numbers, the declared totals and the payload bytes of the
    Payload segments among the datagrams of a list of passes. *)
Definition segment_numbers (ps : list pass_env) : list Z :=
  (fun v : Z * Z * list byte => v.1.2) <$> segments_in ps.

Definition declared_totals (ps : list pass_env) : list Z :=
  (fun v : Z * Z * list byte => v.1.1) <$> segments_in ps.

Definition payload_bytes (ps : list pass_env) : Z :=
  sum_Z ((fun v : Z * Z * list byte => len v.2) <$> segments_in ps).

(** The transfers asked of one discovered server: TCP transfers numbered
    [1..tcp_count] against the TCP port, then UDP transfers numbered
    [1..udp_count] against the UDP port. *)
Definition transfers_wanted (server_ip : string) (server_ports : Z * Z)
    (file_size tcp_count udp_count : Z) : list task :=
  ((fun i => mkTask TcpTransfer server_ip (snd server_ports) file_size i)
     <$> seqZ 1 tcp_count)
  ++ ((fun i => mkTask UdpTransfer server_ip (fst server_ports) file_size i)
        <$> seqZ 1 udp_count).

(** The machine states the main thread and its threads can get to. *)
Definition reachable (prog : list main_op) (m : machine) : Prop :=
  rtc step (mkMachine prog []) m.

Definition returned (m : machine) : Prop := pc m = [].

(** Where the main thread is in [_run_speed_test]: it has started the first
    [j] threads, or it has started them all and joined the first [j]. *)
Definition starting (threads : list task) (m : machine) : Prop :=
  exists j,
    pc m = (ThreadStart <$> drop j threads)
           ++ (ThreadJoin <$> seq 0 (List.length threads)) /\
    (pool m).*1 = take j threads.

Definition joining (threads : list task) (m : machine) : Prop :=
  exists j,
    pc m = ThreadJoin <$> seq j (List.length threads - j) /\
    (pool m).*1 = threads /\
    forall i e, (i < j)%nat -> pool m !! i = Some e -> is_finished e = true.

(** The 21 header bytes of a Payload message. *)
Definition payload_header (total seg : Z) : list byte :=
  be_bytes 4 MAGIC_COOKIE ++ [byte_of_Z PAYLOAD_MSG_TYPE]
  ++ be_bytes 8 total ++ be_bytes 8 seg.

(** ** Codec lemmas *)

Lemma be_bytes_length n v : List.length (be_bytes n v) = n.
Proof. induction n as [|n IH]; simpl; [reflexivity | now rewrite IH]. Qed.

Lemma pack_unsigned_length n v bs :
  pack_unsigned n v = Some bs -> List.length bs = n.
Proof.
  unfold pack_unsigned. destruct (_ && _); [|discriminate].
  intros [= <-]. apply be_bytes_length.
Qed.

Lemma pack_b_length v bs : pack_b v = Some bs -> List.length bs = 1%nat.
Proof.
  unfold pack_b. destruct (_ && _); [|discriminate]. now intros [= <-].
Qed.

Lemma pack_IbQQ_length a b c d bs :
  pack_IbQQ a b c d = Some bs -> List.length bs = 21%nat.
Proof.
  unfold pack_IbQQ. intros H.
  destruct (pack_unsigned 4 a) as [ba|] eqn:Ea; [|discriminate].
  destruct (pack_b b) as [bb|] eqn:Eb; [|discriminate].
  destruct (pack_unsigned 8 c) as [bc|] eqn:Ec; [|discriminate].
  destruct (pack_unsigned 8 d) as [bd|] eqn:Ed; [|discriminate].
  simpl in H. injection H as <-.
  rewrite !length_app.
  rewrite (pack_unsigned_length _ _ _ Ea), (pack_b_length _ _ Eb),
    (pack_unsigned_length _ _ _ Ec), (pack_unsigned_length _ _ _ Ed).
  reflexivity.
Qed.

Lemma pack_unsigned_some n v :
  0 <= v < 2 ^ (8 * Z.of_nat n) -> pack_unsigned n v = Some (be_bytes n v).
Proof.
  intros H. unfold pack_unsigned.
  destruct (Z.leb_spec 0 v), (Z.ltb_spec v (2 ^ (8 * Z.of_nat n))); try lia.
  reflexivity.
Qed.

Lemma pack_IbQQ_header total seg :
  0 <= total < 2 ^ 64 -> 0 <= seg < 2 ^ 64 ->
  pack_IbQQ MAGIC_COOKIE PAYLOAD_MSG_TYPE total seg =
  Some (payload_header total seg).
Proof.
  intros Ht Hs. unfold pack_IbQQ, payload_header.
  rewrite (pack_unsigned_some 8 total), (pack_unsigned_some 8 seg)
    by (change (2 ^ (8 * Z.of_nat 8)) with (2 ^ 64); assumption).
  reflexivity.
Qed.

Lemma random_bytes_len rnd drawn n : len (random_bytes rnd drawn n) = Z.max 0 n.
Proof.
  unfold len, random_bytes, range_count.
  rewrite length_map, length_seq. lia.
Qed.

Lemma byte_to_of_Z z : byte_to_Z (byte_of_Z z) = z mod 256.
Proof.
  unfold byte_to_Z, byte_of_Z.
  assert (Hr : 0 <= z mod 256 < 256) by (apply Z.mod_pos_bound; lia).
  destruct (Byte.of_N (Z.to_N (z mod 256))) as [b|] eqn:E.
  - rewrite (Byte.to_of_N _ E). lia.
  - apply Byte.of_N_None_iff in E. lia.
Qed.

Lemma be_uint_fold acc l :
  fold_left (fun a b => a * 256 + byte_to_Z b) l acc =
  acc * 256 ^ Z.of_nat (List.length l) + be_uint l.
Proof.
  unfold be_uint. revert acc.
  induction l as [|b l IH]; intros acc; simpl List.length; simpl fold_left.
  - rewrite Z.pow_0_r. lia.
  - rewrite IH, (IH (0 * 256 + byte_to_Z b)).
    rewrite Nat2Z.inj_succ, Z.pow_succ_r by lia. ring.
Qed.

Lemma be_uint_cons b l :
  be_uint (b :: l) = byte_to_Z b * 256 ^ Z.of_nat (List.length l) + be_uint l.
Proof. unfold be_uint at 1. simpl fold_left. rewrite be_uint_fold. ring. Qed.

(** Decoding the big-endian bytes of [v] gives back its low [8 n] bits. *)
Lemma be_uint_be_bytes n v : be_uint (be_bytes n v) = v mod 2 ^ (8 * Z.of_nat n).
Proof.
  induction n as [|n IH].
  - simpl. rewrite Z.mod_1_r. reflexivity.
  - cbn [be_bytes]. rewrite be_uint_cons, be_bytes_length, IH, byte_to_of_Z.
    rewrite Z.shiftr_div_pow2 by lia.
    replace (256 ^ Z.of_nat n) with (2 ^ (8 * Z.of_nat n))
      by (change 256 with (2 ^ 8); rewrite <- Z.pow_mul_r by lia; reflexivity).
    replace (8 * Z.of_nat (S n)) with (8 * Z.of_nat n + 8) by lia.
    rewrite Z.pow_add_r by lia. change (2 ^ 8) with 256.
    assert (Hp : 0 < 2 ^ (8 * Z.of_nat n)) by (apply Z.pow_pos_nonneg; lia).
    rewrite (Z.rem_mul_r v (2 ^ (8 * Z.of_nat n)) 256) by lia. ring.
Qed.

Lemma be_uint_be_bytes_id n v :
  0 <= v < 2 ^ (8 * Z.of_nat n) -> be_uint (be_bytes n v) = v.
Proof. intros H. rewrite be_uint_be_bytes. apply Z.mod_small, H. Qed.

(** The header the server packs is the header the client unpacks. *)
Lemma unpack_payload_header total seg payload :
  0 <= total < 2 ^ 64 -> 0 <= seg < 2 ^ 64 ->
  unpack_IbQQ (slice 0 21 (payload_header total seg ++ payload)) =
  Some (MAGIC_COOKIE, PAYLOAD_MSG_TYPE, total, seg).
Proof.
  intros Ht Hs. unfold payload_header. cbn [be_bytes app slice skipn firstn Nat.sub].
  unfold unpack_IbQQ. cbn [List.length Nat.eqb slice skipn firstn Nat.sub sint8_at nth].
  change (Some (be_uint (be_bytes 4 MAGIC_COOKIE),
                be_sint8 (byte_of_Z PAYLOAD_MSG_TYPE),
                be_uint (be_bytes 8 total), be_uint (be_bytes 8 seg)) =
          Some (MAGIC_COOKIE, PAYLOAD_MSG_TYPE, total, seg)).
  rewrite (be_uint_be_bytes_id 8 total), (be_uint_be_bytes_id 8 seg) by assumption.
  reflexivity.
Qed.

#[local] Arguments payload_header : simpl never.

Lemma payload_after_header total seg payload :
  skipn 21 (payload_header total seg ++ payload) = payload.
Proof. reflexivity. Qed.

(** ** The server's UDP handler *)

Lemma send_segments_S rnd addr fs T n seg drawn :
  0 <= T < 2 ^ 64 -> 0 <= seg < 2 ^ 64 ->
  send_segments rnd addr fs 1024 T (S n) seg drawn =
  let payload := random_bytes rnd drawn (Z.min 1024 (fs - seg * 1024)) in
  let r := send_segments rnd addr fs 1024 T n (seg + 1)
             (drawn + List.length payload) in
  mkRun (mkSendto (payload_header T seg ++ payload) addr :: calls r) (caught r).
Proof.
  intros Ht Hs. cbn [send_segments].
  rewrite (pack_IbQQ_header T seg Ht Hs). reflexivity.
Qed.

Lemma send_segments_spec rnd addr fs T :
  0 <= T < 2 ^ 64 ->
  forall n seg drawn, 0 <= seg -> seg + Z.of_nat n <= T ->
  let r := send_segments rnd addr fs 1024 T n seg drawn in
  caught r = None /\
  List.length (calls r) = n /\
  forall i c, calls r !! i = Some c ->
    dest c = addr /\
    unpack_IbQQ (slice 0 21 (packet c)) =
      Some (MAGIC_COOKIE, PAYLOAD_MSG_TYPE, T, seg + Z.of_nat i) /\
    len (payload_of c) = Z.max 0 (Z.min 1024 (fs - (seg + Z.of_nat i) * 1024)).
Proof.
  intros HT n. induction n as [|n IH]; intros seg drawn Hseg Hle.
  - cbn. split; [reflexivity|]. split; [reflexivity|]. intros i c Hc.
    rewrite lookup_nil in Hc. discriminate.
  - rewrite send_segments_S by lia. cbv zeta.
    destruct (IH (seg + 1)
                (drawn + List.length (random_bytes rnd drawn
                                        (Z.min 1024 (fs - seg * 1024))))%nat)
      as (Hc & Hl & Hi); [lia | lia |].
    cbn [calls caught]. split; [exact Hc|]. split; [cbn; now rewrite Hl|].
    intros [|i] c Hlk.
    + cbn in Hlk. injection Hlk as <-. cbn [dest packet payload_of].
      rewrite Z.add_0_r. split; [reflexivity|]. split.
      * apply (unpack_payload_header T seg); lia.
      * exact (random_bytes_len rnd drawn (Z.min 1024 (fs - seg * 1024))).
    + cbn in Hlk. destruct (Hi i c Hlk) as (Hd & Hu & Hp).
      replace (seg + Z.of_nat (S i)) with (seg + 1 + Z.of_nat i) by lia.
      auto.
Qed.

Lemma send_segments_sum rnd addr fs T :
  0 <= T < 2 ^ 64 -> 1024 * (T - 1) < fs <= 1024 * T ->
  forall n seg drawn, 0 <= seg -> seg + Z.of_nat n = T ->
  sum_Z (List.map (fun c => len (payload_of c))
           (calls (send_segments rnd addr fs 1024 T n seg drawn))) =
  Z.max 0 (fs - seg * 1024).
Proof.
  intros HT Hfs n. induction n as [|n IH]; intros seg drawn Hseg Heq.
  - cbn. lia.
  - rewrite send_segments_S by lia. cbv zeta. cbn [calls List.map sum_Z fold_right].
    fold (sum_Z (List.map (fun c => len (payload_of c))
      (calls (send_segments rnd addr fs 1024 T n (seg + 1)
         (drawn + List.length (random_bytes rnd drawn
                                 (Z.min 1024 (fs - seg * 1024)))))))).
    rewrite IH by lia. unfold payload_of at 1. cbn [packet].
    rewrite payload_after_header, random_bytes_len. lia.
Qed.

Lemma total_segments_bounds fs :
  0 <= fs ->
  let T := (fs + 1024 - 1) / 1024 in
  0 <= T /\ 1024 * (T - 1) < fs <= 1024 * T /\ T = ceil_div fs 1024.
Proof.
  intros Hfs T. subst T. unfold ceil_div.
  Z.div_mod_to_equations. lia.
Qed.

(** C3. For a file size that fits the request's u64 field, the UDP
    handler raises nothing and sends exactly [ceil(file_size / 1024)]
    datagrams, all to the requester; datagram [i] carries the header
    (magic, Payload, total, i); the payload lengths add up to [file_size];
    every datagram but the last carries 1024 payload bytes; the last one
    carries [file_size - (total - 1) * 1024]; and for [file_size = 0]
    nothing is sent. *)
Theorem udp_handler_segments rnd addr file_size :
  0 <= file_size < 2 ^ 64 ->
  let r := handle_udp_client rnd addr file_size in
  let total := ceil_div file_size 1024 in
  caught r = None /\
  len (calls r) = total /\
  sum_Z (List.map (fun c => len (payload_of c)) (calls r)) = file_size /\
  (forall i c, calls r !! i = Some c ->
     dest c = addr /\
     unpack_IbQQ (slice 0 21 (packet c)) =
       Some (MAGIC_COOKIE, PAYLOAD_MSG_TYPE, total, Z.of_nat i) /\
     (Z.of_nat i < total - 1 -> len (payload_of c) = 1024) /\
     (Z.of_nat i = total - 1 ->
        len (payload_of c) = file_size - (total - 1) * 1024 /\
        0 < len (payload_of c) <= 1024)) /\
  (file_size = 0 -> calls r = []).
Proof.
  intros Hfs r total.
  destruct (total_segments_bounds file_size) as (HT0 & HTb & HTc); [lia|].
  fold total in HTc. subst r. unfold handle_udp_client. cbv zeta.
  rewrite HTc in *. clear HTc.
  assert (HT : 0 <= total < 2 ^ 64) by lia.
  destruct (send_segments_spec rnd addr file_size total HT
              (range_count total) 0 0%nat) as (Hc & Hl & Hi);
    [lia | unfold range_count; lia |].
  split; [exact Hc|]. split; [unfold len, range_count in *; lia|].
  split.
  { rewrite (send_segments_sum rnd addr file_size total HT HTb)
      by (unfold range_count; lia). lia. }
  split.
  { intros i c Hlk. destruct (Hi i c Hlk) as (Hd & Hu & Hp).
    rewrite Z.add_0_l in Hu, Hp. repeat split; auto; lia. }
  intros ->. assert (total = 0) as -> by lia. reflexivity.
Qed.

Lemma udp_handler_segments_witness :
  let r := handle_udp_client (fun _ => "000"%byte) (mkAddress "10.0.0.7" 5000) 2500 in
  caught r = None /\ len (calls r) = 3 /\
  List.map (fun c => len (payload_of c)) (calls r) = [1024; 1024; 452].
Proof.
  pose proof (udp_handler_segments (fun _ => "000"%byte)
                (mkAddress "10.0.0.7" 5000) 2500 ltac:(lia)) as H.
  cbv zeta in H. destruct H as (Hc & Hl & _).
  split; [exact Hc|]. split; [exact Hl|]. vm_compute. reflexivity.
Defined.

(** ** The server's TCP handler *)

Lemma send_loop_spec rnd file_size sent drawn :
  exists ds,
    send_loop rnd file_size sent drawn = List.map Send ds /\
    sum_Z (List.map len ds) = Z.max 0 (file_size - sent) /\
    Forall (fun d => 0 < len d <= 1024) ds.
Proof.
  funelim (send_loop rnd file_size sent drawn).
  - match goal with
    | IH : ex _ |- _ => destruct IH as (ds & Hds & Hsum & Hall)
    end.
    exists (random_bytes rnd drawn (Z.min chunk_size (file_size - sent)) :: ds).
    rewrite Hds. cbn [List.map sum_Z fold_right].
    fold (sum_Z (List.map len ds)). rewrite Hsum, random_bytes_len.
    unfold chunk_size. split; [reflexivity|]. split; [lia|].
    constructor; [rewrite random_bytes_len; lia | exact Hall].
  - exists []. cbn. split; [reflexivity|]. split; [lia | constructor].
Qed.

Lemma sum_Z_app l1 l2 : sum_Z (l1 ++ l2) = sum_Z l1 + sum_Z l2.
Proof.
  induction l1 as [|x l1 IH]; [reflexivity|].
  change (x + sum_Z (l1 ++ l2) = x + sum_Z l1 + sum_Z l2). lia.
Qed.

Lemma bytes_sent_app cs1 cs2 : bytes_sent (cs1 ++ cs2) = bytes_sent cs1 + bytes_sent cs2.
Proof. unfold bytes_sent. rewrite List.map_app. apply sum_Z_app. Qed.

Lemma bytes_sent_sends ds : bytes_sent (List.map Send ds) = sum_Z (List.map len ds).
Proof. unfold bytes_sent. rewrite List.map_map. reflexivity. Qed.

(** The ASCII instance on a few requests. *)
Example ascii_int_of_request_examples :
  ascii_int_of_request [" "; "2"; "5"; "_"; "0"; "0"; "010"]%byte = Some 2500
  /\ ascii_int_of_request ["-"; "7"; "013"; "010"]%byte = Some (-7)
  /\ ascii_int_of_request ["1"; "_"; "_"; "0"]%byte = None
  /\ ascii_int_of_request ["_"; "1"]%byte = None
  /\ ascii_int_of_request ["1"; "_"]%byte = None
  /\ ascii_int_of_request ["+"]%byte = None
  /\ ascii_int_of_request ["1"; " "; "2"]%byte = None
  /\ ascii_int_of_request ["010"]%byte = None.
Proof. vm_compute. repeat split. Qed.

(** C6. When the request read from an accepted connection parses as an
    integer [file_size > 0], the handler raises nothing, makes a run of
    [send] calls of at most 1024 bytes each whose lengths add up to
    [file_size], and then closes the connection; when it parses as an
    integer [<= 0] the request is turned down with a [ValueError] and
    nothing is sent. *)
Theorem tcp_handler_sends_file_size int_of_request rnd data file_size :
  data <> [] ->
  int_of_request data = Some file_size ->
  let r := handle_tcp_client int_of_request rnd (Received data) in
  (0 < file_size ->
     caught r = None /\
     exists ds, calls r = List.map Send ds ++ [Close] /\
       bytes_sent (calls r) = file_size /\
       Forall (fun d => 0 < len d <= 1024) ds) /\
  (file_size <= 0 -> caught r = Some ValueError /\ calls r = [Close]).
Proof.
  intros Hne Hparse r. subst r. unfold handle_tcp_client, tcp_client_body.
  destruct data as [|b data]; [congruence|]. rewrite Hparse.
  split; intros Hfs.
  - destruct (Z.leb_spec file_size 0); [lia|]. cbn [calls caught].
    split; [reflexivity|].
    destruct (send_loop_spec rnd file_size 0 0%nat) as (ds & Heq & Hsum & Hall).
    exists ds. rewrite Heq. split; [reflexivity|]. split; [|exact Hall].
    rewrite bytes_sent_app, bytes_sent_sends, Hsum. cbn. lia.
  - destruct (Z.leb_spec file_size 0); [|lia]. cbn. split; reflexivity.
Qed.

Lemma tcp_handler_sends_file_size_witness :
  let r := handle_tcp_client ascii_int_of_request (fun _ => "000"%byte)
             (Received ["2"; "5"; "0"; "0"; "010"]%byte) in
  caught r = None /\ bytes_sent (calls r) = 2500.
Proof.
  destruct (tcp_handler_sends_file_size ascii_int_of_request (fun _ => "000"%byte)
              ["2"; "5"; "0"; "0"; "010"]%byte 2500
              ltac:(discriminate) ltac:(reflexivity)) as [Hpos _].
  destruct (Hpos ltac:(lia)) as (Hc & ds & _ & Hsum & _).
  split; [exact Hc | exact Hsum].
Defined.

(** C10. When the request is invalid (an empty read, bytes that do not
    parse as an integer, or an integer [<= 0]) the handler makes no [send]
    call at all: it only closes the connection, and the exception raised
    for the request is the one its own [except] clause caught. *)
Theorem tcp_handler_invalid_request int_of_request rnd received :
  invalid_request int_of_request received ->
  let r := handle_tcp_client int_of_request rnd received in
  calls r = [Close] /\ bytes_sent (calls r) = 0 /\
  (caught r = Some ConnectionError \/ caught r = Some ValueError).
Proof.
  intros Hinv r. subst r. unfold handle_tcp_client, tcp_client_body.
  destruct Hinv as [|data Hnone|data n Hsome Hle].
  - cbn. auto.
  - destruct data as [|b data]; [cbn; auto|]. rewrite Hnone. cbn. auto.
  - destruct data as [|b data]; [cbn; auto|]. rewrite Hsome.
    destruct (Z.leb_spec n 0); [|lia]. cbn. auto.
Qed.

Lemma tcp_handler_invalid_request_witness :
  calls (handle_tcp_client ascii_int_of_request (fun _ => "000"%byte)
           (Received ["a"; "b"; "c"; "010"]%byte)) = [Close].
Proof.
  apply (tcp_handler_invalid_request ascii_int_of_request (fun _ => "000"%byte)
           (Received ["a"; "b"; "c"; "010"]%byte)).
  apply not_a_number. reflexivity.
Defined.

(** ** Decoding received buffers *)

Lemma byte_to_Z_range b : 0 <= byte_to_Z b < 256.
Proof. unfold byte_to_Z. pose proof (Byte.to_N_bounded b). lia. Qed.

Lemma be_sint8_eqb b t :
  0 <= t < 128 -> (be_sint8 b =? t) = (byte_to_Z b =? t).
Proof.
  intros Ht. unfold be_sint8. pose proof (byte_to_Z_range b).
  destruct (Z.ltb_spec (byte_to_Z b) 128); [reflexivity|].
  destruct (Z.eqb_spec (byte_to_Z b - 256) t), (Z.eqb_spec (byte_to_Z b) t);
    try reflexivity; lia.
Qed.

Lemma malformed_iff header_len ty data :
  malformed header_len ty data <-> well_formed header_len ty data = false.
Proof.
  unfold malformed, well_formed.
  destruct (Z.leb_spec header_len (len data)),
    (Z.eqb_spec (magic_field data) MAGIC_COOKIE),
    (Z.eqb_spec (type_byte data) ty); cbn [andb];
    (split; [intros [?|[?|?]] | intros ?]);
    try reflexivity; try discriminate; try lia; try congruence;
    solve [left; lia | right; left; assumption | right; right; assumption].
Qed.

#[local] Tactic Notation "long_enough" ident(data) integer(n) :=
  do n (destruct data as [|? data]; [cbn in *; try lia; try discriminate|]).

#[local] Ltac decode_fields data :=
  unfold magic_field, type_byte, unpack_IbHH, unpack_IbQ, unpack_IbQQ, sint8_at;
  repeat (progress (cbn [slice skipn firstn Nat.sub List.length Nat.eqb nth];
                    change (firstn 0 data) with (@nil byte);
                    change (skipn 0 data) with data)).

(** What the offer listener decodes is the Offer of the wire format. *)
Lemma wait_for_offer_datagram data addr rest :
  wait_for_offer (Datagram data addr :: rest) =
  match offer_of (Datagram data addr) with
  | Some o => Returns o
  | None => wait_for_offer rest
  end.
Proof.
  cbn [wait_for_offer offer_of]. unfold well_formed.
  destruct (Z.leb_spec 9 (len data)) as [Hlen|Hlen]; [|reflexivity].
  unfold len in Hlen. long_enough data 9.
  cbn [slice skipn firstn Nat.sub unpack_IbHH List.length Nat.eqb sint8_at nth
       andb magic_field type_byte].
  decode_fields data.
  rewrite be_sint8_eqb by (unfold OFFER_MSG_TYPE; lia).
  destruct (_ && _); reflexivity.
Qed.

(** What the server decodes is the Request of the wire format. *)
Lemma udp_request_pass_datagram data addr :
  spawned (udp_request_pass (Datagram data addr)) =
  match request_of (Datagram data addr) with
  | Some (a, n) => [(a, n)]
  | None => []
  end.
Proof.
  cbn [udp_request_pass request_of]. unfold well_formed.
  destruct data as [|b0 data]; [reflexivity|].
  destruct (Z.leb_spec 13 (len (b0 :: data))) as [Hlen|Hlen]; [|reflexivity].
  unfold len in Hlen. cbn [List.length] in Hlen.
  long_enough data 12.
  cbn [slice skipn firstn Nat.sub unpack_IbQ List.length Nat.eqb sint8_at nth
       andb magic_field type_byte].
  decode_fields data.
  rewrite be_sint8_eqb by (unfold REQUEST_MSG_TYPE; lia).
  destruct (_ && _); reflexivity.
Qed.

(** What the UDP receive loop decodes is the Payload segment of the wire
    format; a datagram of any content moves [last_packet_time]. *)
Lemma udp_pass_datagram st p data addr :
  received p = Datagram data addr ->
  Qle_bool (now p - last_packet_time st) 1 = true ->
  udp_pass st p =
  Continue
    match segment_of data with
    | Some (total, seg, payload) =>
        count_segment (learn_total (set_last_packet_time st (stamp p)) total)
          seg payload
    | None => set_last_packet_time st (stamp p)
    end.
Proof.
  intros Hrecv Hfresh. unfold udp_pass, segment_of, well_formed.
  rewrite Hfresh, Hrecv. cbn [negb].
  destruct (Z.ltb_spec (len data) 21) as [Hlen|Hlen].
  - destruct (Z.leb_spec 21 (len data)); [lia|]. reflexivity.
  - destruct (Z.leb_spec 21 (len data)) as [_|]; [|lia].
    unfold len in Hlen. long_enough data 21.
    cbn [andb]. decode_fields data.
    rewrite be_sint8_eqb by (unfold PAYLOAD_MSG_TYPE; lia).
    destruct (_ =? MAGIC_COOKIE), (_ =? PAYLOAD_MSG_TYPE); reflexivity.
Qed.

(** ** Discovery *)

Lemma offers_cons r evs :
  offers (r :: evs) =
  match offer_of r with Some o => o :: offers evs | None => offers evs end.
Proof. reflexivity. Qed.

Lemma offers_app evs1 evs2 : offers (evs1 ++ evs2) = offers evs1 ++ offers evs2.
Proof.
  induction evs1 as [|r evs1 IH]; [reflexivity|].
  cbn [app]. rewrite !offers_cons, IH. destruct (offer_of r); reflexivity.
Qed.

Lemma wait_for_offer_offers evs :
  wait_for_offer evs =
  match offers evs with
  | [] => Blocked
  | o :: _ => Returns o
  end.
Proof.
  induction evs as [|[data addr|e] evs IH].
  - reflexivity.
  - rewrite wait_for_offer_datagram, offers_cons.
    destruct (offer_of (Datagram data addr)); [reflexivity | exact IH].
  - exact IH.
Qed.

(** C2, as stated, fails: after a receive that timed out with no Offer
    seen, the listener has not reported anything to its caller; it is
    waiting in the next [recvfrom]. *)
Lemma offer_listener_timeout_counterexample :
  let junk := Datagram ["104"; "105"]%byte (mkAddress "10.0.0.9" 40000) in
  let evs := [junk; RecvfromRaises SocketTimeout] in
  offers evs = [] /\ wait_for_offer evs = Blocked /\
  ~ exists e, wait_for_offer evs = Raises e.
Proof.
  cbv zeta. split; [reflexivity|]. split; [reflexivity|].
  intros [e He]. discriminate He.
Qed.

(** C2, amended. Whatever the socket delivers, the listener never raises
    to its caller: with no valid Offer among the receives made so far
    (timeouts, errors and malformed datagrams included) it is still
    listening, and otherwise it has returned the sender's host and the
    (udp, tcp) ports of the first valid Offer, without looking at what
    came after it. *)
Theorem offer_listener_returns_first_offer evs :
  (forall e, wait_for_offer evs <> Raises e) /\
  (offers evs = [] -> wait_for_offer evs = Blocked) /\
  (forall pre data addr post,
     evs = pre ++ Datagram data addr :: post ->
     offers pre = [] ->
     well_formed 9 OFFER_MSG_TYPE data = true ->
     wait_for_offer evs =
     Returns (host addr, (be_uint (slice 5 7 data), be_uint (slice 7 9 data)))).
Proof.
  rewrite wait_for_offer_offers. split; [|split].
  - intros e. destruct (offers evs); discriminate.
  - intros ->. reflexivity.
  - intros pre data addr post -> Hpre Hwf.
    rewrite offers_app, Hpre, offers_cons. cbn [app offer_of].
    rewrite Hwf. reflexivity.
Qed.

Lemma offer_listener_returns_first_offer_witness :
  wait_for_offer
    [RecvfromRaises SocketTimeout;
     Datagram ["171"; "205"; "220"; "186"; "002"; "031"; "144"; "031"; "145"]%byte
       (mkAddress "10.0.0.2" 13117)] =
  Returns ("10.0.0.2"%string, (8080, 8081)).
Proof.
  destruct (offer_listener_returns_first_offer
    [RecvfromRaises SocketTimeout;
     Datagram ["171"; "205"; "220"; "186"; "002"; "031"; "144"; "031"; "145"]%byte
       (mkAddress "10.0.0.2" 13117)]) as (_ & _ & H).
  exact (H [RecvfromRaises SocketTimeout] _ _ [] eq_refl eq_refl eq_refl).
Defined.

(** ** The client's TCP transfer *)

Lemma tcp_transfer_speed file_size transfer_num start_time chunks end_time rep :
  tcp_transfer file_size transfer_num start_time chunks end_time = Returns rep ->
  tcp_speed rep = (inject_Z (file_size * 8) / (end_time - start_time))%Q.
Proof.
  unfold tcp_transfer.
  destruct (tcp_receive file_size 0 chunks); cbn [outcome_bind]; try discriminate.
  unfold truediv. destruct (Qeq_bool _ 0); cbn [outcome_bind]; [discriminate|].
  intros [= <-]. reflexivity.
Qed.

(** C1 at an early close. 2048 bytes are asked for, the peer delivers 1024
    and closes, and one second passes: the loop ends with 1024 bytes
    received, and the speed reported is 16384 bits per second, the bits
    asked for over the duration, not the 8192 bits received. *)
Theorem tcp_transfer_early_close_speed :
  let chunks := [Received (repeat "000"%byte 1024); Received []] in
  tcp_receive 2048 0 chunks = Returns 1024 /\
  exists rep,
    tcp_transfer 2048 1 0 chunks 1 = Returns rep /\
    (tcp_speed rep == 16384)%Q /\
    ~ (tcp_speed rep == inject_Z (1024 * 8) / tcp_duration rep)%Q.
Proof.
  cbv zeta. split; [vm_compute; reflexivity|].
  eexists. split; [vm_compute; reflexivity|].
  split; vm_compute; [reflexivity | discriminate].
Qed.

(** ** Malformed datagrams at the three decode sites *)

(** C4. A buffer that is too short for the header of the expected kind,
    or whose magic cookie is not 0xABCDDCBA, or whose type byte is not the
    expected one, raises nothing and is dropped at each site, and the loop
    goes on to the next receive: the offer listener behaves as if it had
    not arrived; the client's payload receiver only notes the time of
    arrival and keeps its counters; the server's request receiver spawns
    no handler for it. *)
Theorem malformed_datagram_ignored data addr :
  (malformed 9 OFFER_MSG_TYPE data ->
   forall rest, wait_for_offer (Datagram data addr :: rest) = wait_for_offer rest) /\
  (malformed 21 PAYLOAD_MSG_TYPE data ->
   forall st p rest,
     received p = Datagram data addr ->
     Qle_bool (now p - last_packet_time st) 1 = true ->
     udp_pass st p = Continue (set_last_packet_time st (stamp p)) /\
     udp_receive st (p :: rest) =
       udp_receive (set_last_packet_time st (stamp p)) rest) /\
  (malformed 13 REQUEST_MSG_TYPE data ->
   forall rest,
     spawned (udp_request_pass (Datagram data addr)) = [] /\
     spawned (handle_udp_requests (Datagram data addr :: rest)) =
       spawned (handle_udp_requests rest)).
Proof.
  split; [|split]; intros Hbad; apply malformed_iff in Hbad.
  - intros rest. rewrite wait_for_offer_datagram. cbn [offer_of].
    rewrite Hbad. reflexivity.
  - intros st p rest Hrecv Hfresh.
    assert (Hpass : udp_pass st p = Continue (set_last_packet_time st (stamp p))).
    { rewrite (udp_pass_datagram st p data addr Hrecv Hfresh).
      unfold segment_of. rewrite Hbad. reflexivity. }
    split; [exact Hpass|]. cbn [udp_receive]. rewrite Hpass. reflexivity.
  - intros rest.
    assert (Hnone : spawned (udp_request_pass (Datagram data addr)) = []).
    { rewrite udp_request_pass_datagram. cbn [request_of].
      rewrite Hbad. reflexivity. }
    split; [exact Hnone|]. cbn [handle_udp_requests].
    unfold spawned in *. rewrite omap_app, Hnone. reflexivity.
Qed.

Lemma malformed_datagram_ignored_witness :
  let data := ["171"; "205"; "220"; "187"; "002"; "031"; "144"; "031"; "145"]%byte in
  let addr := mkAddress "10.0.0.2" 13117 in
  wait_for_offer [Datagram data addr] = Blocked /\
  udp_pass (initial_state 0) (mkPass (1 # 2) (Datagram data addr) (6 # 10)) =
    Continue (set_last_packet_time (initial_state 0) (6 # 10)) /\
  spawned (handle_udp_requests [Datagram data addr]) = [].
Proof.
  cbv zeta.
  destruct (malformed_datagram_ignored
    ["171"; "205"; "220"; "187"; "002"; "031"; "144"; "031"; "145"]%byte
    (mkAddress "10.0.0.2" 13117)) as (Hoffer & Hpayload & Hreq).
  split; [|split].
  - apply (Hoffer ltac:(right; left; vm_compute; discriminate) []).
  - apply (Hpayload ltac:(left; vm_compute; reflexivity) (initial_state 0)
             (mkPass (1 # 2) _ (6 # 10)) [] eq_refl eq_refl).
  - apply (Hreq ltac:(left; vm_compute; reflexivity) []).
Defined.

(** ** The client's UDP receive loop *)

Lemma udp_pass_fresh st p st' :
  udp_pass st p = Continue st' -> Qle_bool (now p - last_packet_time st) 1 = true.
Proof.
  unfold udp_pass. destruct (Qle_bool _ 1); [reflexivity | discriminate].
Qed.

(** One pass, case by case on what [recvfrom] produced. *)
Lemma udp_pass_cases st p :
  (Qle_bool (now p - last_packet_time st) 1 = false /\ udp_pass st p = Break) \/
  (Qle_bool (now p - last_packet_time st) 1 = true /\
   match received p with
   | RecvfromRaises SocketTimeout => udp_pass st p = Continue st
   | RecvfromRaises e => udp_pass st p = Abort e
   | Datagram data _ =>
       udp_pass st p =
       Continue
         match segment_of data with
         | Some (total, seg, payload) =>
             count_segment (learn_total (set_last_packet_time st (stamp p)) total)
               seg payload
         | None => set_last_packet_time st (stamp p)
         end
   end).
Proof.
  destruct (Qle_bool (now p - last_packet_time st) 1) eqn:Hfresh.
  - right. split; [reflexivity|].
    destruct (received p) as [data addr|e] eqn:Hrecv.
    + exact (udp_pass_datagram st p data addr Hrecv Hfresh).
    + unfold udp_pass. rewrite Hfresh, Hrecv. destruct e; reflexivity.
  - left. split; [reflexivity|]. unfold udp_pass. rewrite Hfresh. reflexivity.
Qed.

Lemma count_segment_total st seg payload :
  total_segments (count_segment st seg payload) = total_segments st.
Proof. unfold count_segment. destruct (decide _); reflexivity. Qed.

Lemma count_segment_last st seg payload :
  last_packet_time (count_segment st seg payload) = last_packet_time st.
Proof. unfold count_segment. destruct (decide _); reflexivity. Qed.

Lemma learn_total_last st total :
  last_packet_time (learn_total st total) = last_packet_time st.
Proof. unfold learn_total. destruct (total_segments st); reflexivity. Qed.

Lemma learn_total_segments st total :
  segments_received (learn_total st total) = segments_received st.
Proof. unfold learn_total. destruct (total_segments st); reflexivity. Qed.

Lemma learn_total_bytes st total :
  bytes_received (learn_total st total) = bytes_received st.
Proof. unfold learn_total. destruct (total_segments st); reflexivity. Qed.

(** A pass that goes on leaves [last_packet_time] at the latest arrival. *)
Lemma udp_pass_arrival st p st' :
  udp_pass st p = Continue st' ->
  last_packet_time st' = arrival (last_packet_time st) p.
Proof.
  intros Hpass. unfold arrival.
  destruct (udp_pass_cases st p) as [[_ Hb]|[_ Hc]]; [congruence|].
  destruct (received p) as [data addr|e].
  - rewrite Hc in Hpass. injection Hpass as <-.
    destruct (segment_of data) as [[[total seg] payload]|]; [|reflexivity].
    rewrite count_segment_last, learn_total_last. reflexivity.
  - destruct e; congruence.
Qed.

(** What a pass that goes on does to the learned total. *)
Lemma udp_pass_total st p st' :
  udp_pass st p = Continue st' ->
  total_segments st' =
  match total_segments st, segment_in p with
  | Some t, _ => Some t
  | None, Some (total, _, _) => Some total
  | None, None => None
  end.
Proof.
  intros Hpass. unfold segment_in.
  destruct (udp_pass_cases st p) as [[_ Hb]|[_ Hc]]; [congruence|].
  destruct (received p) as [data addr|e].
  - rewrite Hc in Hpass. injection Hpass as <-.
    destruct (segment_of data) as [[[total seg] payload]|].
    + rewrite count_segment_total. unfold learn_total, set_last_packet_time.
      cbn [total_segments]. destruct (total_segments st); reflexivity.
    + cbn. destruct (total_segments st); reflexivity.
  - assert (st' = st) as -> by (destruct e; congruence).
    destruct (total_segments st); reflexivity.
Qed.

Lemma segments_in_cons p ps :
  segments_in (p :: ps) =
  match segment_in p with Some v => v :: segments_in ps | None => segments_in ps end.
Proof. reflexivity. Qed.

(** The total is learned from the first Payload segment the loop gets to,
    and never changes afterwards. *)
Lemma udp_receive_total ps : forall st st',
  udp_receive st ps = Returns st' ->
  match total_segments st with
  | Some t => total_segments st' = Some t
  | None =>
      total_segments st' = None \/
      exists total seg payload,
        head (segments_in ps) = Some (total, seg, payload) /\
        total_segments st' = Some total
  end.
Proof.
  induction ps as [|p ps IH]; intros st st' Hrun; [discriminate|].
  cbn [udp_receive] in Hrun.
  destruct (udp_pass st p) as [|st1|e] eqn:Hpass; try discriminate.
  - injection Hrun as <-. destruct (total_segments st); auto.
  - specialize (IH st1 st' Hrun). rewrite (udp_pass_total st p st1 Hpass) in IH.
    rewrite segments_in_cons.
    destruct (total_segments st) as [t|]; [exact IH|].
    destruct (segment_in p) as [[[total seg] payload]|].
    + right. exists total, seg, payload. split; [reflexivity | exact IH].
    + exact IH.
Qed.

Lemma success_rate_total segments total :
  exists q, success_rate segments total = Returns q.
Proof.
  unfold success_rate. destruct total as [t|]; [|eauto].
  destruct (Z.eqb_spec t 0) as [|Hnz]; [eauto|].
  unfold truediv.
  destruct (Qeq_bool (inject_Z t) 0) eqn:Hz; [|cbn; eauto].
  apply Qeq_bool_eq in Hz. unfold Qeq, inject_Z in Hz. cbn in Hz. lia.
Qed.

(** C9. The success-rate computation never raises [ZeroDivisionError]:
    it always yields a number, and that number is 0 when no total was
    learned and when the learned total is 0. Over a whole run of the
    receive loop: when no Payload segment is among the datagrams, or when
    the first one declares [totalSegments = 0], the rate reported is 0. *)
Theorem success_rate_never_divides_by_zero :
  (forall segments total,
     success_rate segments total <> Raises ZeroDivisionError /\
     exists q, success_rate segments total = Returns q) /\
  (forall segments,
     success_rate segments None = Returns 0%Q /\
     success_rate segments (Some 0) = Returns 0%Q) /\
  (forall t ps st,
     udp_receive (initial_state t) ps = Returns st ->
     (segments_in ps = [] \/
      exists seg payload, head (segments_in ps) = Some (0, seg, payload)) ->
     success_rate (segments_received st) (total_segments st) = Returns 0%Q).
Proof.
  split; [|split].
  - intros segments total.
    destruct (success_rate_total segments total) as [q Hq].
    split; [rewrite Hq; discriminate | eauto].
  - intros segments. split; reflexivity.
  - intros t ps st Hrun Hsegs.
    pose proof (udp_receive_total ps _ _ Hrun) as Htot. cbn in Htot.
    destruct Htot as [->|(total & seg & payload & Hhead & ->)]; [reflexivity|].
    destruct Hsegs as [Hnil|(seg' & payload' & Hhead')].
    + rewrite Hnil in Hhead. discriminate.
    + rewrite Hhead' in Hhead. injection Hhead as <- _ _. reflexivity.
Qed.

Lemma success_rate_never_divides_by_zero_witness :
  let addr := mkAddress "10.0.0.2" 5001 in
  let ps := [mkPass (1 # 2) (Datagram (payload_header 0 7 ++ ["000"]%byte) addr) (6 # 10);
             mkPass 2 (RecvfromRaises SocketTimeout) 0] in
  exists st,
    udp_receive (initial_state 0) ps = Returns st /\
    total_segments st = Some 0 /\
    success_rate (segments_received st) (total_segments st) = Returns 0%Q.
Proof.
  cbv zeta.
  destruct success_rate_never_divides_by_zero as (_ & _ & Hrun).
  eexists. split; [vm_compute; reflexivity|]. split; [reflexivity|].
  apply (Hrun 0%Q
    [mkPass (1 # 2) (Datagram (payload_header 0 7 ++ ["000"]%byte)
                       (mkAddress "10.0.0.2" 5001)) (6 # 10);
     mkPass 2 (RecvfromRaises SocketTimeout) 0]).
  - vm_compute. reflexivity.
  - right. exists 7, ["000"%byte]. vm_compute. reflexivity.
Defined.

(** ** Deduplication and the success rate *)

Lemma be_uint_nonneg l : 0 <= be_uint l.
Proof.
  induction l as [|b l IH] using rev_ind; [cbn; lia|].
  unfold be_uint in *. rewrite fold_left_app. cbn [fold_left].
  pose proof (byte_to_Z_range b). lia.
Qed.

Lemma segment_of_nonneg data total seg payload :
  segment_of data = Some (total, seg, payload) -> 0 <= total /\ 0 <= seg.
Proof.
  unfold segment_of. destruct (well_formed _ _ _); [|discriminate].
  intros [= <- <- _]. split; apply be_uint_nonneg.
Qed.

Lemma count_segment_seen st seg payload :
  seg ∈ segments_received st -> count_segment st seg payload = st.
Proof. intros Hin. unfold count_segment. destruct (decide _); [reflexivity|tauto]. Qed.

Lemma count_segment_fresh st seg payload :
  seg ∉ segments_received st ->
  count_segment st seg payload =
  mkUdpState (bytes_received st + len payload) ({[seg]} ∪ segments_received st)
    (total_segments st) (last_packet_time st).
Proof. intros Hin. unfold count_segment. destruct (decide _); [tauto|reflexivity]. Qed.

(** What a pass that goes on does to the counters, when its datagram is a
    Payload segment. *)
Lemma udp_pass_segment st p st' total seg payload :
  udp_pass st p = Continue st' ->
  segment_in p = Some (total, seg, payload) ->
  if decide (seg ∈ segments_received st)
  then bytes_received st' = bytes_received st /\
       segments_received st' = segments_received st
  else bytes_received st' = bytes_received st + len payload /\
       segments_received st' = {[seg]} ∪ segments_received st.
Proof.
  intros Hpass Hseg. unfold segment_in in Hseg.
  destruct (udp_pass_cases st p) as [[_ Hb]|[_ Hc]]; [congruence|].
  destruct (received p) as [data addr|e]; [|discriminate].
  rewrite Hseg, Hpass in Hc. injection Hc as ->.
  destruct (decide (seg ∈ segments_received st)) as [Hin|Hin].
  - rewrite count_segment_seen by (rewrite learn_total_segments; exact Hin).
    rewrite learn_total_bytes, learn_total_segments. split; reflexivity.
  - rewrite count_segment_fresh by (rewrite learn_total_segments; exact Hin).
    cbn [bytes_received segments_received].
    rewrite learn_total_bytes, learn_total_segments. split; reflexivity.
Qed.

(** A pass that goes on without a Payload segment keeps the counters. *)
Lemma udp_pass_no_segment st p st' :
  udp_pass st p = Continue st' ->
  segment_in p = None ->
  bytes_received st' = bytes_received st /\
  segments_received st' = segments_received st.
Proof.
  intros Hpass Hseg. unfold segment_in in Hseg.
  destruct (udp_pass_cases st p) as [[_ Hb]|[_ Hc]]; [congruence|].
  destruct (received p) as [data addr|e].
  - rewrite Hseg, Hpass in Hc. injection Hc as ->. split; reflexivity.
  - assert (st' = st) as -> by (destruct e; congruence). split; reflexivity.
Qed.

Lemma gset_size_bounded (X : gset Z) T :
  (forall x, x ∈ X -> 0 <= x < T) -> Z.of_nat (size X) <= Z.max 0 T.
Proof.
  intros H.
  assert (Hsub : X ⊆ list_to_set (seqZ 0 T)).
  { intros x Hx. apply elem_of_list_to_set, elem_of_seqZ.
    specialize (H x Hx). lia. }
  apply subseteq_size in Hsub.
  rewrite size_list_to_set in Hsub by apply NoDup_seqZ.
  rewrite length_seqZ in Hsub. lia.
Qed.

Lemma rate_bounds n T :
  0 <= n <= Z.max 0 T -> T <> 0 ->
  (0 <= inject_Z n / inject_Z T * 100 /\ inject_Z n / inject_Z T * 100 <= 100)%Q.
Proof.
  intros Hn HT. destruct T as [|p|p]; try lia.
  - unfold Qle, Qdiv, Qmult, Qinv, inject_Z. cbn. split; nia.
  - assert (n = 0) as -> by lia. split; discriminate.
Qed.

(** The segment numbers counted all come from Payload segments of the run. *)
Lemma udp_receive_segments_below T ps :
  (forall p total seg payload,
     In p ps -> segment_in p = Some (total, seg, payload) -> seg < T) ->
  forall st st',
    (forall x, x ∈ segments_received st -> 0 <= x < T) ->
    udp_receive st ps = Returns st' ->
    forall x, x ∈ segments_received st' -> 0 <= x < T.
Proof.
  induction ps as [|p ps IH]; intros Hps st st' Hst Hrun; [discriminate|].
  cbn [udp_receive] in Hrun.
  destruct (udp_pass st p) as [|st1|e] eqn:Hpass; try discriminate.
  - injection Hrun as <-. exact Hst.
  - apply (IH (fun q total seg payload Hq => Hps q total seg payload (or_intror Hq))
             st1 st'); [|exact Hrun].
    destruct (segment_in p) as [[[total seg] payload]|] eqn:Hseg.
    + pose proof (udp_pass_segment st p st1 total seg payload Hpass Hseg) as Hcnt.
      destruct (decide (seg ∈ segments_received st)) as [Hin|Hin];
        destruct Hcnt as [_ ->]; [exact Hst|].
      intros x [->%elem_of_singleton|Hx]%elem_of_union; [|exact (Hst x Hx)].
      split; [|exact (Hps p total seg payload (or_introl eq_refl) Hseg)].
      unfold segment_in in Hseg. destruct (received p); [|discriminate].
      apply (segment_of_nonneg _ _ _ _ Hseg).
    + destruct (udp_pass_no_segment st p st1 Hpass Hseg) as [_ ->]. exact Hst.
Qed.

(** C5, as stated, fails on the rate: the total is the one the first
    segment declares, and nothing compares later segment numbers with it.
    Two segments numbered 0 and 1 that both declare a total of 1 give a
    success rate of 200. *)
Lemma success_rate_above_100_counterexample :
  let addr := mkAddress "10.0.0.2" 5001 in
  let ps :=
    [mkPass 0 (Datagram (payload_header 1 0 ++ ["000"]%byte) addr) (1 # 10);
     mkPass (2 # 10) (Datagram (payload_header 1 1 ++ ["000"]%byte) addr) (3 # 10);
     mkPass 2 (RecvfromRaises SocketTimeout) 2] in
  exists rep,
    udp_transfer 1 1 0 0 ps 2 = Returns rep /\
    (udp_success_rate rep == 200)%Q /\
    ~ (udp_success_rate rep <= 100)%Q.
Proof.
  cbv zeta. eexists. split; [vm_compute; reflexivity|].
  split; [vm_compute; reflexivity|]. vm_compute. intros H. apply H. reflexivity.
Qed.

(** C5, amended. A Payload segment whose number is already in the set of
    seen numbers leaves the byte count and the set as they were, a new
    number adds its payload length and enters the set, so a later segment
    with the same number adds nothing. The success rate is between 0 and
    100 for every run in which each Payload segment received carries a
    number below the total that the loop learned. *)
Theorem udp_dedup_and_rate_bound :
  (forall st p st' total seg payload,
     udp_pass st p = Continue st' ->
     segment_in p = Some (total, seg, payload) ->
     seg ∈ segments_received st' /\
     (seg ∈ segments_received st ->
        bytes_received st' = bytes_received st /\
        segments_received st' = segments_received st) /\
     (seg ∉ segments_received st ->
        bytes_received st' = bytes_received st + len payload)) /\
  (forall t ps st,
     udp_receive (initial_state t) ps = Returns st ->
     (forall T p total seg payload,
        total_segments st = Some T -> In p ps ->
        segment_in p = Some (total, seg, payload) -> seg < T) ->
     exists q,
       success_rate (segments_received st) (total_segments st) = Returns q /\
       (0 <= q <= 100)%Q).
Proof.
  split.
  - intros st p st' total seg payload Hpass Hseg.
    pose proof (udp_pass_segment st p st' total seg payload Hpass Hseg) as Hcnt.
    destruct (decide (seg ∈ segments_received st)) as [Hin|Hin];
      destruct Hcnt as [Hb Hs].
    + split; [rewrite Hs; exact Hin|]. split; [auto | tauto].
    + split; [rewrite Hs; apply elem_of_union_l, elem_of_singleton; reflexivity|].
      split; [tauto | auto].
  - intros t ps st Hrun Hbelow.
    destruct (total_segments st) as [T|] eqn:Htot;
      [|exists 0%Q; split; [reflexivity | split; discriminate]].
    unfold success_rate. destruct (Z.eqb_spec T 0) as [|Hnz];
      [exists 0%Q; split; [reflexivity | split; discriminate]|].
    assert (Hsize : 0 <= Z.of_nat (size (segments_received st)) <= Z.max 0 T).
    { split; [lia|]. apply gset_size_bounded.
      apply (udp_receive_segments_below T ps
               (fun p total seg payload Hp Hs => Hbelow T p total seg payload eq_refl Hp Hs)
               (initial_state t) st); [|exact Hrun].
      intros x Hx. cbn in Hx. set_solver. }
    unfold truediv.
    destruct (Qeq_bool (inject_Z T) 0) eqn:Hz.
    { apply Qeq_bool_eq in Hz. unfold Qeq, inject_Z in Hz. cbn in Hz. lia. }
    cbn [outcome_bind]. eexists. split; [reflexivity|].
    apply rate_bounds; assumption.
Qed.

Lemma udp_dedup_and_rate_bound_witness :
  let addr := mkAddress "10.0.0.2" 5001 in
  let ps :=
    [mkPass 0 (Datagram (payload_header 2 0 ++ ["000"]%byte) addr) (1 # 10);
     mkPass (2 # 10) (Datagram (payload_header 2 0 ++ ["000"]%byte) addr) (3 # 10);
     mkPass 2 (RecvfromRaises SocketTimeout) 2] in
  exists st q,
    udp_receive (initial_state 0) ps = Returns st /\
    bytes_received st = 1 /\
    success_rate (segments_received st) (total_segments st) = Returns q /\
    (0 <= q <= 100)%Q.
Proof.
  cbv zeta.
  destruct udp_dedup_and_rate_bound as [_ Hrate].
  eexists.
  edestruct (Hrate 0%Q
    [mkPass 0 (Datagram (payload_header 2 0 ++ ["000"]%byte)
                 (mkAddress "10.0.0.2" 5001)) (1 # 10);
     mkPass (2 # 10) (Datagram (payload_header 2 0 ++ ["000"]%byte)
                        (mkAddress "10.0.0.2" 5001)) (3 # 10);
     mkPass 2 (RecvfromRaises SocketTimeout) 2]) as (q & Hq & Hb).
  - vm_compute. reflexivity.
  - intros T p total seg payload HT Hp Hs.
    vm_compute in HT. injection HT as <-.
    destruct Hp as [<-|[<-|[<-|[]]]]; vm_compute in Hs;
      try discriminate; injection Hs as _ Hseg _; lia.
  - exists q. split; [reflexivity|]. split; [vm_compute; reflexivity|].
    split; [exact Hq | exact Hb].
Defined.

(** ** The inactivity rule *)

Lemma udp_pass_continues st p :
  Qle_bool (now p - last_packet_time st) 1 = true ->
  (forall e, received p = RecvfromRaises e -> e = SocketTimeout) ->
  exists st', udp_pass st p = Continue st' /\
              last_packet_time st' = arrival (last_packet_time st) p.
Proof.
  intros Hfresh Hok.
  destruct (udp_pass_cases st p) as [[Hq _]|[_ Hc]]; [congruence|].
  destruct (received p) as [data addr|e] eqn:Hrecv.
  - eexists. split; [exact Hc|]. apply udp_pass_arrival. exact Hc.
  - rewrite (Hok e eq_refl) in Hc. exists st. split; [exact Hc|].
    unfold arrival. rewrite Hrecv. reflexivity.
Qed.

Lemma udp_receive_quiet ps : forall st,
  no_socket_error ps ->
  match first_quiet_pass (last_packet_time st) ps with
  | Some k =>
      udp_receive st (firstn k ps) = Blocked /\
      exists st', udp_receive st (firstn (S k) ps) = Returns st' /\
                  udp_receive st ps = Returns st'
  | None => udp_receive st ps = Blocked
  end.
Proof.
  induction ps as [|p ps IH]; intros st Hok; [reflexivity|].
  apply Forall_cons in Hok as [Hp Hps]. cbn [first_quiet_pass].
  destruct (Qle_bool (now p - last_packet_time st) 1) eqn:Hfresh.
  - destruct (udp_pass_continues st p Hfresh Hp) as (st1 & Hpass & Hlast).
    specialize (IH st1 Hps). rewrite Hlast in IH.
    destruct (first_quiet_pass (arrival (last_packet_time st) p) ps) as [k|];
      cbn [option_map firstn udp_receive]; rewrite Hpass; exact IH.
  - assert (Hb : udp_pass st p = Break)
      by (unfold udp_pass; rewrite Hfresh; reflexivity).
    cbn [firstn udp_receive]. rewrite Hb. split; [reflexivity|]. eauto.
Qed.

Lemma udp_receive_returns_quiet ps : forall st st',
  udp_receive st ps = Returns st' ->
  exists k, first_quiet_pass (last_packet_time st) ps = Some k.
Proof.
  induction ps as [|p ps IH]; intros st st' Hrun; [discriminate|].
  cbn [udp_receive] in Hrun. cbn [first_quiet_pass].
  destruct (udp_pass st p) as [|st1|e] eqn:Hpass; try discriminate.
  - unfold udp_pass in Hpass.
    destruct (Qle_bool (now p - last_packet_time st) 1); [|eauto].
    cbn [negb] in Hpass. destruct (received p) as [data addr|[]];
      repeat match type of Hpass with
             | context [if ?c then _ else _] => destruct c
             | context [match ?c with _ => _ end] => destruct c
             end; discriminate.
  - rewrite (udp_pass_fresh st p st1 Hpass).
    destruct (IH st1 st' Hrun) as [k Hk].
    rewrite (udp_pass_arrival st p st1 Hpass) in Hk. rewrite Hk. cbn. eauto.
Qed.

Lemma is_timeout_spec e : is_timeout e = true <-> e = SocketTimeout.
Proof. destruct e; cbn; split; congruence. Qed.

Lemma udp_pass_abort st p e :
  udp_pass st p = Abort e <->
  Qle_bool (now p - last_packet_time st) 1 = true /\
  received p = RecvfromRaises e /\ e <> SocketTimeout.
Proof.
  destruct (udp_pass_cases st p) as [[Hq Hb]|[Hq Hc]].
  - split; [congruence|]. intros (Hq' & _). congruence.
  - destruct (received p) as [data addr|e'].
    + split; [congruence|]. intros (_ & He & _). discriminate.
    + assert (Hcase : (e' = SocketTimeout /\ udp_pass st p = Continue st) \/
                      (e' <> SocketTimeout /\ udp_pass st p = Abort e')).
      { destruct e';
          first [ left; split; [reflexivity | exact Hc]
                | right; split; [discriminate | exact Hc] ]. }
      destruct Hcase as [[-> Hp]|[Hne Hp]]; rewrite Hp; split.
      * discriminate.
      * intros (_ & He & Hne'). injection He as <-. congruence.
      * intros [= <-]. auto.
      * intros (_ & He & _). injection He as <-. reflexivity.
Qed.

Lemma udp_receive_first_exit ps : forall st,
  match first_exit (last_packet_time st) ps with
  | None => udp_receive st ps = Blocked
  | Some (QuietAt k) =>
      udp_receive st (firstn k ps) = Blocked /\
      exists st', udp_receive st (firstn (S k) ps) = Returns st' /\
                  udp_receive st ps = Returns st'
  | Some (ErrorAt k e) =>
      e <> SocketTimeout /\
      udp_receive st (firstn k ps) = Blocked /\
      udp_receive st (firstn (S k) ps) = Raises e /\
      udp_receive st ps = Raises e
  end.
Proof.
  induction ps as [|p ps IH]; intros st; [reflexivity|].
  cbn [first_exit].
  destruct (udp_pass_cases st p) as [[Hq Hb]|[Hq Hc]]; rewrite Hq.
  - cbn [firstn udp_receive]. rewrite Hb. split; [reflexivity|]. eauto.
  - destruct (received p) as [data addr|e] eqn:Hrecv.
    + pose proof (udp_pass_arrival st p _ Hc) as Hlast.
      unfold arrival in Hlast. rewrite Hrecv in Hlast.
      match type of Hc with _ = Continue ?s1 => specialize (IH s1) end.
      rewrite Hlast in IH.
      destruct (first_exit (stamp p) ps) as [[k|k e]|];
        cbn [later firstn udp_receive]; rewrite Hc; exact IH.
    + destruct (is_timeout e) eqn:Ht.
      * apply is_timeout_spec in Ht. subst e. specialize (IH st).
        destruct (first_exit (last_packet_time st) ps) as [[k|k e]|];
          cbn [later firstn udp_receive]; rewrite Hc; exact IH.
      * assert (Hne : e <> SocketTimeout).
        { intros ->. discriminate. }
        assert (Ha : udp_pass st p = Abort e) by (destruct e; congruence).
        cbn [firstn udp_receive]. rewrite Ha. auto.
Qed.

(** C8, as stated, fails: a [recvfrom] that raises something other than
    [socket.timeout] leaves the loop, through the handler around the
    whole transfer, although no pass was quiet. *)
Lemma udp_loop_socket_error_counterexample :
  let ps := [mkPass 0 (RecvfromRaises SocketError) 0] in
  first_quiet_pass 0 ps = None /\
  udp_receive (initial_state 0) ps = Raises SocketError /\
  udp_receive (initial_state 0) ps <> Blocked /\
  udp_transfer 1024 1 0 0 ps 1 = Raises SocketError.
Proof.
  cbv zeta. split; [reflexivity|]. split; [reflexivity|].
  split; [discriminate | reflexivity].
Qed.

(** C8, amended. A pass of the receive loop breaks exactly when the clock
    at its start reads more than one second past the most recent arrival;
    it leaves the loop with an exception exactly when it is not quiet and
    its [recvfrom] raises something other than [socket.timeout]; otherwise
    it goes on, with [last_packet_time] set by a datagram of any content,
    Payload segment or not, duplicate or not, and kept by a timeout. Over
    a run the loop is blocked in [recvfrom] until the first pass that is
    quiet or meets such an error, and is left there: through [break] at a
    quiet pass, through the exception otherwise. Nothing else ends it. *)
Theorem udp_loop_ends_on_inactivity_or_error :
  (forall st p,
     (udp_pass st p = Break <->
      Qle_bool (now p - last_packet_time st) 1 = false) /\
     (forall e, udp_pass st p = Abort e <->
        Qle_bool (now p - last_packet_time st) 1 = true /\
        received p = RecvfromRaises e /\ e <> SocketTimeout) /\
     (forall st', udp_pass st p = Continue st' ->
        Qle_bool (now p - last_packet_time st) 1 = true /\
        last_packet_time st' = arrival (last_packet_time st) p)) /\
  (forall st ps,
     match first_exit (last_packet_time st) ps with
     | None => udp_receive st ps = Blocked
     | Some (QuietAt k) =>
         udp_receive st (firstn k ps) = Blocked /\
         exists st', udp_receive st (firstn (S k) ps) = Returns st' /\
                     udp_receive st ps = Returns st'
     | Some (ErrorAt k e) =>
         e <> SocketTimeout /\
         udp_receive st (firstn k ps) = Blocked /\
         udp_receive st (firstn (S k) ps) = Raises e /\
         udp_receive st ps = Raises e
     end).
Proof.
  split.
  - intros st p. split; [|split].
    + destruct (udp_pass_cases st p) as [[Hq Hb]|[Hq Hc]]; [tauto|].
      split; [|congruence]. intros Hb. rewrite Hb in Hc.
      destruct (received p) as [data addr|[]]; discriminate.
    + intros e. apply udp_pass_abort.
    + intros st' Hpass. split.
      * exact (udp_pass_fresh st p st' Hpass).
      * exact (udp_pass_arrival st p st' Hpass).
  - exact (fun st ps => udp_receive_first_exit ps st).
Qed.

Lemma udp_loop_ends_on_inactivity_or_error_witness :
  let addr := mkAddress "10.0.0.2" 5001 in
  let p1 := mkPass 0 (Datagram ["104"; "105"]%byte addr) (9 # 10) in
  let p2 := mkPass (95 # 100) (RecvfromRaises SocketTimeout) 0 in
  let p3 := mkPass (195 # 100) (RecvfromRaises SocketTimeout) 0 in
  last_packet_time (set_last_packet_time (initial_state 0) (9 # 10)) = (9 # 10) /\
  udp_receive (initial_state 0) [p1; p2] = Blocked /\
  (exists st', udp_receive (initial_state 0) [p1; p2; p3] = Returns st') /\
  udp_receive (initial_state 0) [p1; mkPass 1 (RecvfromRaises SocketError) 0; p3]
    = Raises SocketError.
Proof.
  cbv zeta.
  destruct udp_loop_ends_on_inactivity_or_error as (Hpass & Hrun).
  split; [|split; [|split]].
  - destruct (Hpass (initial_state 0)
                (mkPass 0 (Datagram ["104"; "105"]%byte (mkAddress "10.0.0.2" 5001))
                   (9 # 10))) as (_ & _ & Hcont).
    exact (proj2 (Hcont (set_last_packet_time (initial_state 0) (9 # 10)) eq_refl)).
  - pose proof (Hrun (initial_state 0)
      [mkPass 0 (Datagram ["104"; "105"]%byte (mkAddress "10.0.0.2" 5001)) (9 # 10);
       mkPass (95 # 100) (RecvfromRaises SocketTimeout) 0;
       mkPass (195 # 100) (RecvfromRaises SocketTimeout) 0]) as H.
    change (first_exit _ _) with (Some (QuietAt 2)) in H.
    exact (proj1 H).
  - pose proof (Hrun (initial_state 0)
      [mkPass 0 (Datagram ["104"; "105"]%byte (mkAddress "10.0.0.2" 5001)) (9 # 10);
       mkPass (95 # 100) (RecvfromRaises SocketTimeout) 0;
       mkPass (195 # 100) (RecvfromRaises SocketTimeout) 0]) as H.
    change (first_exit _ _) with (Some (QuietAt 2)) in H.
    destruct H as (_ & st' & _ & Hret). exists st'. exact Hret.
  - pose proof (Hrun (initial_state 0)
      [mkPass 0 (Datagram ["104"; "105"]%byte (mkAddress "10.0.0.2" 5001)) (9 # 10);
       mkPass 1 (RecvfromRaises SocketError) 0;
       mkPass (195 # 100) (RecvfromRaises SocketTimeout) 0]) as H.
    change (first_exit _ _) with (Some (ErrorAt 1 SocketError)) in H.
    exact (proj2 (proj2 (proj2 H))).
Defined.

(** ** Orchestration *)

Lemma tasks_for_seqZ k ip prt file_size count :
  tasks_for k ip prt file_size count =
  (fun i => mkTask k ip prt file_size i) <$> seqZ 1 count.
Proof.
  unfold tasks_for, seqZ, range_count. rewrite <- list_fmap_compose.
  reflexivity.
Qed.

Lemma threads_of_wanted ip ports file_size tcp_count udp_count :
  threads_of ip ports file_size tcp_count udp_count =
  transfers_wanted ip ports file_size tcp_count udp_count.
Proof. unfold threads_of, transfers_wanted. now rewrite !tasks_for_seqZ. Qed.

Lemma run_speed_test_ops ip ports file_size tcp_count udp_count :
  run_speed_test ip ports file_size tcp_count udp_count =
  let threads := threads_of ip ports file_size tcp_count udp_count in
  (ThreadStart <$> threads) ++ (ThreadJoin <$> seq 0 (List.length threads)).
Proof. reflexivity. Qed.

Lemma starting_to_joining threads m j :
  pc m = (ThreadStart <$> drop j threads)
         ++ (ThreadJoin <$> seq 0 (List.length threads)) ->
  (pool m).*1 = take j threads ->
  drop j threads = [] ->
  joining threads m.
Proof.
  intros Hpc Hpool Hdrop. exists 0%nat. rewrite Hpc, Hdrop, Nat.sub_0_r.
  split; [reflexivity|]. split; [|intros; lia].
  rewrite Hpool. rewrite <- (take_drop j threads) at 2.
  rewrite Hdrop, app_nil_r. reflexivity.
Qed.

Lemma step_preserves threads m m' :
  step m m' ->
  starting threads m \/ joining threads m ->
  starting threads m' \/ joining threads m'.
Proof.
  intros Hstep Hinv. destruct Hstep as [t rest pl|ops pl i t ok Hi|i rest pl t ok Hi].
  - (* the main thread starts a thread *)
    destruct Hinv as [(j & Hpc & Hpool)|(j & Hpc & _)]; cbn [pc pool] in *.
    + destruct (drop j threads) as [|t' l] eqn:Hdrop.
      * cbn in Hpc. destruct (List.length threads); discriminate.
      * cbn in Hpc. injection Hpc as <- ->.
        assert (Hj : threads !! j = Some t).
        { rewrite <- (Nat.add_0_r j), <- lookup_drop, Hdrop. reflexivity. }
        left. exists (S j). cbn [pc pool]. split.
        -- rewrite (drop_S _ _ _ Hj) in Hdrop. injection Hdrop as <-.
           reflexivity.
        -- rewrite fmap_app, Hpool, (take_S_r _ _ _ Hj). reflexivity.
    + destruct (List.length threads - j)%nat; discriminate.
  - (* a thread finishes *)
    assert (Hfst : (<[i:=(t, Finished ok)]> pl).*1 = pl.*1).
    { rewrite list_fmap_insert. apply list_insert_id.
      rewrite list_lookup_fmap, Hi. reflexivity. }
    destruct Hinv as [(j & Hpc & Hpool)|(j & Hpc & Hpool & Hfin)];
      cbn [pc pool] in *.
    + left. exists j. cbn [pc pool]. rewrite Hfst. auto.
    + right. exists j. cbn [pc pool]. rewrite Hfst.
      split; [exact Hpc|]. split; [exact Hpool|].
      intros i' e Hlt Hlk. destruct (decide (i = i')) as [<-|Hne].
      * rewrite list_lookup_insert_eq in Hlk by (eapply lookup_lt_Some; eauto).
        injection Hlk as <-. reflexivity.
      * rewrite list_lookup_insert_ne in Hlk by exact Hne. eauto.
  - (* the main thread joins a finished thread *)
    assert (Hjoin : joining threads (mkMachine (ThreadJoin i :: rest) pl)).
    { destruct Hinv as [(j & Hpc & Hpool)|Hj]; [|exact Hj].
      destruct (drop j threads) as [|t' l] eqn:Hdrop; [|discriminate].
      apply (starting_to_joining threads _ j);
        [rewrite Hdrop; exact Hpc | exact Hpool | exact Hdrop]. }
    destruct Hjoin as (j & Hpc & Hpool & Hfin). cbn [pc pool] in *.
    destruct (List.length threads - j)%nat as [|k] eqn:Hk; [discriminate|].
    cbn in Hpc. injection Hpc as <- ->.
    right. exists (S i). cbn [pc pool].
    replace (List.length threads - S i)%nat with k by lia.
    split; [reflexivity|]. split; [exact Hpool|].
    intros i' e Hlt Hlk. destruct (decide (i' = i)) as [->|Hne].
    + rewrite Hi in Hlk. injection Hlk as <-. reflexivity.
    + apply (Hfin i' e); [lia | exact Hlk].
Qed.

Lemma reachable_invariant threads m m' :
  rtc step m m' ->
  starting threads m \/ joining threads m ->
  starting threads m' \/ joining threads m'.
Proof.
  induction 1 as [|m1 m2 m3 Hstep _ IH]; [tauto|].
  intros Hinv. apply IH. exact (step_preserves threads m1 m2 Hstep Hinv).
Qed.

Lemma returned_all_finished threads m :
  starting threads m \/ joining threads m ->
  returned m ->
  (pool m).*1 = threads /\ Forall (fun e => is_finished e = true) (pool m).
Proof.
  intros Hinv Hret. unfold returned in Hret.
  assert (Hjoin : joining threads m).
  { destruct Hinv as [(j & Hpc & Hpool)|Hj]; [|exact Hj].
    pose proof Hpc as Hpc0.
    rewrite Hret in Hpc. symmetry in Hpc. apply app_eq_nil in Hpc as [Hs _].
    apply fmap_nil_inv in Hs.
    exact (starting_to_joining threads m j Hpc0 Hpool Hs). }
  destruct Hjoin as (j & Hpc & Hpool & Hfin). rewrite Hret in Hpc.
  symmetry in Hpc. apply fmap_nil_inv in Hpc.
  assert (Hlen : (List.length threads - j = 0)%nat)
    by (apply (f_equal List.length) in Hpc; rewrite length_seq in Hpc; exact Hpc).
  split; [exact Hpool|]. apply Forall_lookup. intros i e Hlk.
  apply (Hfin i e); [|exact Hlk].
  apply lookup_lt_Some in Hlk.
  rewrite <- (length_fmap fst), Hpool in Hlk. lia.
Qed.

Lemma start_all ts rest pl :
  rtc step (mkMachine ((ThreadStart <$> ts) ++ rest) pl)
           (mkMachine rest (pl ++ ((fun t => (t, Running)) <$> ts))).
Proof.
  revert pl. induction ts as [|t ts IH]; intros pl.
  - cbn. rewrite app_nil_r. reflexivity.
  - rewrite fmap_cons, <- app_comm_cons.
    eapply rtc_l; [apply step_start|].
    rewrite fmap_cons.
    replace (pl ++ (t, Running) :: ((fun t => (t, Running)) <$> ts))
      with ((pl ++ [(t, Running)]) ++ ((fun t => (t, Running)) <$> ts))
      by (rewrite <- app_assoc; reflexivity).
    apply IH.
Qed.

Lemma finish_all ops ts : forall done,
  rtc step (mkMachine ops (done ++ ((fun t => (t, Running)) <$> ts)))
           (mkMachine ops (done ++ ((fun t => (t, Finished true)) <$> ts))).
Proof.
  induction ts as [|t ts IH]; intros done; [reflexivity|].
  cbn [fmap list_fmap].
  eapply rtc_l.
  - apply (step_finish ops _ (List.length done) t true).
    apply list_lookup_middle. reflexivity.
  - rewrite insert_app_r_alt by lia. rewrite Nat.sub_diag. cbn [insert list_insert].
    replace (done ++ (t, Finished true) :: ((fun t => (t, Running)) <$> ts))
      with ((done ++ [(t, Finished true)]) ++ ((fun t => (t, Running)) <$> ts))
      by (rewrite <- app_assoc; reflexivity).
    replace (done ++ (t, Finished true) :: ((fun t => (t, Finished true)) <$> ts))
      with ((done ++ [(t, Finished true)]) ++ ((fun t => (t, Finished true)) <$> ts))
      by (rewrite <- app_assoc; reflexivity).
    apply IH.
Qed.

Lemma join_all pl k : forall j,
  (forall i, (j <= i < j + k)%nat -> exists t ok, pl !! i = Some (t, Finished ok)) ->
  rtc step (mkMachine (ThreadJoin <$> seq j k) pl) (mkMachine [] pl).
Proof.
  induction k as [|k IH]; intros j Hfin; [reflexivity|].
  destruct (Hfin j ltac:(lia)) as (t & ok & Hj).
  eapply rtc_l; [exact (step_join j _ pl t ok Hj)|].
  apply IH. intros i Hi. apply Hfin. lia.
Qed.

Lemma transfers_wanted_length ip ports file_size tcp_count udp_count :
  0 <= tcp_count -> 0 <= udp_count ->
  len (transfers_wanted ip ports file_size tcp_count udp_count) =
  tcp_count + udp_count.
Proof.
  intros Ht Hu. unfold len, transfers_wanted.
  rewrite length_app, !length_fmap, !length_seqZ. lia.
Qed.

(** C7. For one discovered server and a configuration with non-negative
    counts, the orchestrator starts [tcp_count] TCP transfers numbered
    [1..tcp_count] and [udp_count] UDP transfers numbered [1..udp_count],
    and no other thread; all [tcp_count + udp_count] of them can be running
    at the same time; the orchestrator does return; and whenever it has
    returned, every one of them has finished, whether it succeeded or
    failed. *)
Theorem orchestrator_starts_and_joins_all ip ports file_size tcp_count udp_count :
  0 <= tcp_count -> 0 <= udp_count ->
  let prog := run_speed_test ip ports file_size tcp_count udp_count in
  let wanted := transfers_wanted ip ports file_size tcp_count udp_count in
  len wanted = tcp_count + udp_count /\
  (forall m, reachable prog m -> exists j, (pool m).*1 = take j wanted) /\
  (exists m, reachable prog m /\ (pool m).*1 = wanted /\
             Forall (fun e => is_running e = true) (pool m)) /\
  (exists m, reachable prog m /\ returned m) /\
  (forall m, reachable prog m -> returned m ->
     (pool m).*1 = wanted /\ Forall (fun e => is_finished e = true) (pool m)).
Proof.
  intros Ht Hu prog wanted. subst prog.
  rewrite run_speed_test_ops. cbv zeta. rewrite threads_of_wanted. fold wanted.
  assert (Hinit : starting wanted
            (mkMachine ((ThreadStart <$> wanted)
                        ++ (ThreadJoin <$> seq 0 (List.length wanted))) [])).
  { exists 0%nat. split; reflexivity. }
  assert (Hrun : rtc step
            (mkMachine ((ThreadStart <$> wanted)
                        ++ (ThreadJoin <$> seq 0 (List.length wanted))) [])
            (mkMachine (ThreadJoin <$> seq 0 (List.length wanted))
                       ((fun t => (t, Running)) <$> wanted)))
    by apply (start_all wanted _ []).
  split; [apply transfers_wanted_length; assumption|].
  split; [|split; [|split]].
  - intros m Hm.
    destruct (reachable_invariant wanted _ m Hm (or_introl Hinit))
      as [(j & _ & Hpool)|(j & _ & Hpool & _)].
    + exists j. exact Hpool.
    + exists (List.length wanted). rewrite firstn_all. exact Hpool.
  - eexists. split; [exact Hrun|]. cbn [pool]. split.
    + rewrite <- list_fmap_compose. apply list_fmap_id.
    + apply Forall_fmap, Forall_true. reflexivity.
  - exists (mkMachine [] ((fun t => (t, Finished true)) <$> wanted)).
    split; [|reflexivity]. unfold reachable.
    etransitivity; [exact Hrun|].
    etransitivity; [apply (finish_all _ wanted [])|]. cbn [app].
    apply join_all. intros i Hi.
    destruct (lookup_lt_is_Some_2 wanted i ltac:(lia)) as [t Hlk].
    exists t, true. rewrite list_lookup_fmap, Hlk. reflexivity.
  - intros m Hm Hret. apply returned_all_finished; [|exact Hret].
    exact (reachable_invariant wanted _ m Hm (or_introl Hinit)).
Qed.

Lemma orchestrator_starts_and_joins_all_witness :
  let prog := run_speed_test "10.0.0.2" (5001, 5002) 1048576 3 2 in
  len (transfers_wanted "10.0.0.2" (5001, 5002) 1048576 3 2) = 5 /\
  forall m, reachable prog m -> returned m ->
    List.length (pool m) = 5%nat /\
    Forall (fun e => is_finished e = true) (pool m).
Proof.
  cbv zeta.
  destruct (orchestrator_starts_and_joins_all "10.0.0.2" (5001, 5002) 1048576 3 2
              ltac:(lia) ltac:(lia)) as (Hlen & _ & _ & _ & Hjoin).
  split; [exact Hlen|]. intros m Hm Hret.
  destruct (Hjoin m Hm Hret) as [Hpool Hfin]. split; [|exact Hfin].
  rewrite <- (length_fmap fst), Hpool. reflexivity.
Defined.

(** * Further properties of the two programs *)

(** ** The TCP request line *)

Lemma digit_value d : 0 <= d < 10 -> byte_to_Z (digit d) = 48 + d.
Proof.
  intros Hd. unfold digit. rewrite byte_to_of_Z. apply Z.mod_small. lia.
Qed.

Lemma digit_is_digit d : 0 <= d < 10 -> is_digit (digit d) = true.
Proof.
  intros Hd. unfold is_digit. rewrite (digit_value d Hd).
  destruct (Z.leb_spec 48 (48 + d)), (Z.leb_spec (48 + d) 57);
    first [reflexivity | lia].
Qed.

Lemma is_digit_not_space b : is_digit b = true -> is_space b = false.
Proof.
  unfold is_digit, is_space. intros H.
  apply andb_true_iff in H as [H1%Z.leb_le H2%Z.leb_le].
  destruct (Z.leb_spec 9 (byte_to_Z b)), (Z.leb_spec (byte_to_Z b) 13),
    (Z.leb_spec 28 (byte_to_Z b)), (Z.leb_spec (byte_to_Z b) 32);
    first [reflexivity | lia].
Qed.

Lemma digits_value_decimal n acc :
  0 <= n -> forall f, digits_value 0 f (decimal_digits n acc) = digits_value n true acc.
Proof.
  funelim (decimal_digits n acc); intros Hn f.
  - cbn [digits_value]. rewrite digit_is_digit, digit_value by lia.
    f_equal. lia.
  - match goal with
    | IH : 0 <= _ -> forall f, _ |- _ =>
        rewrite IH by (apply Z.div_pos; lia)
    end.
    assert (Hm : 0 <= n mod 10 < 10) by (apply Z.mod_pos_bound; lia).
    cbn [digits_value]. rewrite digit_is_digit, digit_value by lia.
    f_equal. pose proof (Z.div_mod n 10 ltac:(lia)). lia.
Qed.

Lemma decimal_digits_digits n acc :
  0 <= n -> Forall (fun b => is_digit b = true) acc ->
  Forall (fun b => is_digit b = true) (decimal_digits n acc) /\
  decimal_digits n acc <> [].
Proof.
  funelim (decimal_digits n acc); intros Hn Hacc.
  - split; [|discriminate]. constructor; [apply digit_is_digit; lia | exact Hacc].
  - match goal with
    | IH : 0 <= _ -> _ -> _ |- _ => apply IH; [apply Z.div_pos; lia|]
    end.
    constructor; [|exact Hacc]. apply digit_is_digit, Z.mod_pos_bound. lia.
Qed.

Lemma lstrip_head b l : is_space b = false -> lstrip (b :: l) = b :: l.
Proof. intros H. cbn [lstrip]. rewrite H. reflexivity. Qed.

Lemma strip_line l :
  l <> [] -> Forall (fun b => is_space b = false) l ->
  strip (l ++ ["010"%byte]) = l.
Proof.
  intros Hne Hall. unfold strip.
  destruct l as [|b l]; [congruence|].
  assert (Hb : is_space b = false) by (inversion Hall; assumption).
  rewrite <- app_comm_cons, (lstrip_head b _ Hb), app_comm_cons.
  rewrite rev_unit. change (lstrip ("010"%byte :: rev (b :: l))) with (lstrip (rev (b :: l))).
  assert (Hrev : Forall (fun b => is_space b = false) (rev (b :: l)))
    by (apply Forall_rev; exact Hall).
  destruct (rev (b :: l)) as [|c r] eqn:Er.
  - apply (f_equal (@rev byte)) in Er. rewrite rev_involutive in Er. discriminate.
  - rewrite lstrip_head by (inversion Hrev; assumption).
    rewrite <- Er. apply rev_involutive.
Qed.

Lemma request_line_parses n : ascii_int_of_request (request_line n) = Some n.
Proof.
  unfold ascii_int_of_request, request_line, str_of_int.
  destruct (Z.ltb_spec n 0) as [Hneg|Hpos].
  - destruct (decimal_digits_digits (- n) [] ltac:(lia) ltac:(constructor))
      as [Hd _].
    rewrite strip_line; [|discriminate|].
    + change (byte_to_Z "-"%byte =? 45) with true. cbv iota.
      rewrite digits_value_decimal by lia. cbn. f_equal. lia.
    + constructor; [reflexivity|].
      eapply Forall_impl; [exact Hd|]. intros b. apply is_digit_not_space.
  - destruct (decimal_digits_digits n [] Hpos ltac:(constructor)) as [Hd Hne].
    rewrite strip_line; [|exact Hne|].
    + destruct (decimal_digits n []) as [|b rest] eqn:Ed; [congruence|].
      assert (Hb : is_digit b = true) by (inversion Hd; assumption).
      unfold is_digit in Hb. apply andb_true_iff in Hb as [H1%Z.leb_le H2%Z.leb_le].
      destruct (Z.eqb_spec (byte_to_Z b) 45); [lia|].
      destruct (Z.eqb_spec (byte_to_Z b) 43); [lia|].
      rewrite <- Ed. rewrite digits_value_decimal by lia. reflexivity.
    + eapply Forall_impl; [exact Hd|]. intros b. apply is_digit_not_space.
Qed.

(** X1. The line the client sends for a file size is read back by the
    server's parse, on ASCII, as that same size, whatever its sign. *)
Theorem request_line_round_trip n :
  ascii_int_of_request (request_line n) = Some n /\
  last (request_line n) = Some "010"%byte.
Proof.
  split; [apply request_line_parses|].
  unfold request_line. apply last_snoc.
Qed.

(** ** The client's TCP receive loop *)

Lemma tcp_receive_reads chunks : forall file_size b n,
  tcp_receive file_size b chunks = Returns n ->
  exists pre post,
    chunks = List.map Received pre ++ post /\
    Forall (fun d => 0 < len d) pre /\
    n = b + sum_Z (List.map len pre) /\
    (file_size <= n \/ exists post', post = Received [] :: post') /\
    (Forall (fun d => len d <= 1024) pre -> n <= Z.max b (file_size + 1023)).
Proof.
  induction chunks as [|c chunks IH]; intros file_size b n Hrun.
  - cbn in Hrun. destruct (Z.ltb_spec b file_size); [discriminate|].
    injection Hrun as <-. exists [], []. cbn.
    repeat split; [constructor | lia | left; lia | lia].
  - cbn [tcp_receive] in Hrun.
    destruct (Z.ltb_spec b file_size) as [Hlt|Hge].
    + destruct c as [[|x chunk]|e]; [| |discriminate].
      * injection Hrun as <-. exists [], (Received [] :: chunks). cbn.
        repeat split; [constructor | lia | right; eauto | lia].
      * destruct (IH _ _ _ Hrun) as (pre & post & -> & Hne & -> & Hend & Hb).
        exists ((x :: chunk) :: pre), post. cbn [List.map app sum_Z fold_right].
        fold (sum_Z (List.map len pre)).
        assert (Hx : 0 < len (x :: chunk)) by (unfold len; cbn; lia).
        repeat split.
        -- constructor; assumption.
        -- lia.
        -- destruct Hend as [?|?]; [left; lia | right; assumption].
        -- intros Hall. inversion Hall; subst. specialize (Hb ltac:(assumption)). lia.
    + injection Hrun as <-. exists [], (c :: chunks). cbn.
      repeat split; [constructor | lia | left; lia | lia].
Qed.

(** X2. When the receive loop of a TCP transfer ends, the count it holds
    is the total length of the reads it made, all of them non-empty;
    either the count has reached the requested size or the next read was
    the empty read of a closed connection; and with reads of at most 1024
    bytes the count is at most 1023 above the requested size. *)
Theorem tcp_receive_count file_size chunks n :
  tcp_receive file_size 0 chunks = Returns n ->
  exists pre post,
    chunks = List.map Received pre ++ post /\
    Forall (fun d => 0 < len d) pre /\
    n = sum_Z (List.map len pre) /\
    (file_size <= n \/ exists post', post = Received [] :: post') /\
    (Forall (fun d => len d <= 1024) pre -> n <= Z.max 0 (file_size + 1023)).
Proof.
  intros Hrun.
  destruct (tcp_receive_reads chunks file_size 0 n Hrun)
    as (pre & post & Hc & Hne & Hn & Hend & Hb).
  exists pre, post. repeat split; auto.
Qed.

Lemma tcp_receive_count_witness :
  exists pre post,
    [Received ["104"; "105"]%byte; Received []; Received ["111"]%byte] =
      List.map Received pre ++ post /\
    2 = sum_Z (List.map len pre) /\
    (5 <= 2 \/ exists post', post = Received [] :: post').
Proof.
  destruct (tcp_receive_count 5
              [Received ["104"; "105"]%byte; Received []; Received ["111"]%byte]
              2 eq_refl) as (pre & post & Hc & _ & Hn & Hend & _).
  exists pre, post. split; [exact Hc|]. split; [exact Hn | exact Hend].
Defined.

Lemma tcp_receive_all ds : forall file_size b rest,
  Forall (fun d => 0 < len d) ds ->
  b + sum_Z (List.map len ds) = file_size ->
  tcp_receive file_size b (List.map Received ds ++ rest) = Returns file_size.
Proof.
  induction ds as [|d ds IH]; intros file_size b rest Hne Hsum.
  - cbn in Hsum. assert (b = file_size) as -> by lia. clear Hsum.
    destruct rest as [|c rest]; cbn [List.map app tcp_receive];
      rewrite Z.ltb_irrefl; reflexivity.
  - apply Forall_cons in Hne as [Hd Hne].
    assert (Hpos : 0 <= sum_Z (List.map len ds)).
    { clear -Hne. induction Hne as [|x l Hx _ IHl]; cbn; [lia|].
      fold (sum_Z (List.map len l)). lia. }
    cbn [List.map sum_Z fold_right] in Hsum. fold (sum_Z (List.map len ds)) in Hsum.
    cbn [List.map app tcp_receive].
    destruct (Z.ltb_spec b file_size); [|lia].
    destruct d as [|x d]; [unfold len in Hd; cbn in Hd; lia|].
    apply IH; [exact Hne | lia].
Qed.

Lemma sum_len_concat (ls : list (list byte)) :
  sum_Z (List.map len ls) = len (concat ls).
Proof.
  induction ls as [|l ls IH]; [reflexivity|].
  cbn [List.map sum_Z fold_right concat]. fold (sum_Z (List.map len ls)).
  rewrite IH. unfold len. rewrite length_app. lia.
Qed.

(** X3. A whole TCP exchange. For a positive size, the server's handler,
    given the client's request line, raises nothing and sends a stream of
    exactly that many bytes before it closes; and however the connection
    cuts that stream into non-empty reads, the client's receive loop ends
    with exactly the requested number of bytes, without waiting for the
    close. *)
Theorem tcp_exchange_delivers_file_size rnd file_size :
  0 < file_size ->
  let r := handle_tcp_client ascii_int_of_request rnd
             (Received (request_line file_size)) in
  caught r = None /\
  exists ds,
    calls r = List.map Send ds ++ [Close] /\
    len (concat ds) = file_size /\
    forall reads rest,
      Forall (fun d => 0 < len d) reads ->
      concat reads = concat ds ->
      tcp_receive file_size 0 (List.map Received reads ++ rest) = Returns file_size.
Proof.
  intros Hpos r. subst r. unfold handle_tcp_client, tcp_client_body.
  destruct (request_line file_size) as [|b l] eqn:Hline.
  { unfold request_line in Hline. destruct (str_of_int file_size); discriminate. }
  rewrite <- Hline, request_line_parses.
  destruct (Z.leb_spec file_size 0); [lia|]. cbn [calls caught].
  split; [reflexivity|].
  destruct (send_loop_spec rnd file_size 0 0%nat) as (ds & Heq & Hsum & Hall).
  exists ds. rewrite Heq. split; [reflexivity|].
  rewrite sum_len_concat in Hsum. split; [lia|].
  intros reads rest Hne Hcat. apply tcp_receive_all; [exact Hne|].
  rewrite sum_len_concat, Hcat. lia.
Qed.

Lemma tcp_exchange_delivers_file_size_witness :
  caught (handle_tcp_client ascii_int_of_request (fun _ => "000"%byte)
            (Received (request_line 1500))) = None.
Proof.
  apply (tcp_exchange_delivers_file_size (fun _ => "000"%byte) 1500). lia.
Defined.

(** ** The chunks the server writes *)

Lemma send_loop_chunks rnd file_size sent drawn :
  forall i c,
    send_loop rnd file_size sent drawn !! i = Some c ->
    sent + 1024 * Z.of_nat i < file_size /\
    exists d, c = Send d /\
      len d = Z.min 1024 (file_size - sent - 1024 * Z.of_nat i).
Proof.
  funelim (send_loop rnd file_size sent drawn); intros i c Hlk.
  - destruct i as [|i].
    + cbn in Hlk. injection Hlk as <-. split; [lia|].
      eexists. split; [reflexivity|]. rewrite random_bytes_len.
      unfold chunk_size. lia.
    + cbn in Hlk.
      match goal with
      | IH : forall i c, _ -> _ |- _ => destruct (IH i c Hlk) as (Hlt' & d & -> & Hd)
      end.
      unfold chunk_size in *. split; [lia|]. exists d. split; [reflexivity|]. lia.
  - rewrite lookup_nil in Hlk. discriminate.
Qed.

Lemma send_loop_length rnd file_size sent drawn :
  sent <= file_size ->
  len (send_loop rnd file_size sent drawn) = ceil_div (file_size - sent) 1024.
Proof.
  funelim (send_loop rnd file_size sent drawn); intros Hle.
  - unfold len in *. cbn [List.length].
    match goal with
    | IH : _ -> Z.of_nat _ = _ |- _ => rewrite Nat2Z.inj_succ, IH by (unfold chunk_size; lia)
    end.
    unfold ceil_div, chunk_size. Z.div_mod_to_equations. lia.
  - assert (sent = file_size) as -> by lia. rewrite Z.sub_diag. reflexivity.
Qed.

(** X4. For a request that parses as a positive size, the handler makes
    [ceil(file_size / 1024)] writes and then the one [close]; write [i]
    carries [min(1024, file_size - 1024 i)] bytes, so every write but the
    last carries exactly 1024. *)
Theorem tcp_handler_chunks int_of_request rnd data file_size :
  data <> [] ->
  int_of_request data = Some file_size ->
  0 < file_size ->
  let cs := calls (handle_tcp_client int_of_request rnd (Received data)) in
  let writes := ceil_div file_size 1024 in
  len cs = writes + 1 /\
  cs !! Z.to_nat writes = Some Close /\
  forall i c,
    cs !! i = Some c -> Z.of_nat i < writes ->
    exists d, c = Send d /\ len d = Z.min 1024 (file_size - 1024 * Z.of_nat i).
Proof.
  intros Hne Hparse Hpos cs writes. subst cs writes.
  unfold handle_tcp_client, tcp_client_body.
  destruct data as [|b data]; [congruence|]. rewrite Hparse.
  destruct (Z.leb_spec file_size 0); [lia|]. cbn [calls].
  pose proof (send_loop_length rnd file_size 0 0%nat ltac:(lia)) as Hlen.
  rewrite Z.sub_0_r in Hlen. unfold len in Hlen.
  split; [unfold len; rewrite length_app; cbn [List.length]; lia|]. split.
  - rewrite <- Hlen, Nat2Z.id. apply list_lookup_middle. reflexivity.
  - intros i c Hlk Hi. rewrite lookup_app_l in Hlk by lia.
    destruct (send_loop_chunks rnd file_size 0 0%nat i c Hlk) as (_ & d & -> & Hd).
    exists d. split; [reflexivity|]. rewrite Hd. f_equal. lia.
Qed.

Lemma tcp_handler_chunks_witness :
  let cs := calls (handle_tcp_client ascii_int_of_request (fun _ => "000"%byte)
                     (Received (request_line 2500))) in
  len cs = 4 /\ cs !! 3%nat = Some Close.
Proof.
  destruct (tcp_handler_chunks ascii_int_of_request (fun _ => "000"%byte)
              (request_line 2500) 2500 ltac:(discriminate)
              (request_line_parses 2500) ltac:(lia)) as (Hlen & Hclose & _).
  split; [exact Hlen | exact Hclose].
Defined.

(** ** Offers, from the broadcaster to the listener *)

Lemma pack_unsigned_inv n v bs :
  pack_unsigned n v = Some bs -> 0 <= v < 2 ^ (8 * Z.of_nat n) /\ bs = be_bytes n v.
Proof.
  unfold pack_unsigned.
  destruct (Z.leb_spec 0 v), (Z.ltb_spec v (2 ^ (8 * Z.of_nat n)));
    cbn [andb]; intros [= <-]. split; [lia | reflexivity].
Qed.

Lemma pack_offer_inv udp_port tcp_port msg :
  pack_IbHH MAGIC_COOKIE OFFER_MSG_TYPE udp_port tcp_port = Some msg ->
  0 <= udp_port < 2 ^ 16 /\ 0 <= tcp_port < 2 ^ 16 /\
  msg = be_bytes 4 MAGIC_COOKIE ++ [byte_of_Z OFFER_MSG_TYPE]
        ++ be_bytes 2 udp_port ++ be_bytes 2 tcp_port.
Proof.
  unfold pack_IbHH. change (pack_unsigned 4 MAGIC_COOKIE) with (Some (be_bytes 4 MAGIC_COOKIE)).
  change (pack_b OFFER_MSG_TYPE) with (Some [byte_of_Z OFFER_MSG_TYPE]).
  cbn [mbind option_bind].
  destruct (pack_unsigned 2 udp_port) as [bu|] eqn:Eu; [|discriminate].
  destruct (pack_unsigned 2 tcp_port) as [bt|] eqn:Et; [|discriminate].
  cbn [mbind option_bind]. intros [= <-].
  apply pack_unsigned_inv in Eu as [Hu ->], Et as [Ht ->].
  change (2 ^ (8 * Z.of_nat 2)) with (2 ^ 16) in *. auto.
Qed.

Lemma offer_of_packed udp_port tcp_port msg extra addr :
  pack_IbHH MAGIC_COOKIE OFFER_MSG_TYPE udp_port tcp_port = Some msg ->
  List.length msg = 9%nat /\
  offer_of (Datagram (msg ++ extra) addr) = Some (host addr, (udp_port, tcp_port)).
Proof.
  intros Hpack. apply pack_offer_inv in Hpack as (Hu & Ht & ->).
  split; [reflexivity|].
  cbn [offer_of be_bytes app]. unfold well_formed.
  replace (9 <=? len _) with true
    by (symmetry; apply Z.leb_le; unfold len; cbn [List.length]; lia).
  unfold magic_field, type_byte.
  cbn [slice skipn firstn Nat.sub nth andb].
  change (firstn 0 extra) with (@nil byte).
  change (be_uint [byte_of_Z (udp_port ≫ (8 * Z.of_nat 1));
                   byte_of_Z (udp_port ≫ (8 * Z.of_nat 0))])
    with (be_uint (be_bytes 2 udp_port)).
  change (be_uint [byte_of_Z (tcp_port ≫ (8 * Z.of_nat 1));
                   byte_of_Z (tcp_port ≫ (8 * Z.of_nat 0))])
    with (be_uint (be_bytes 2 tcp_port)).
  rewrite !be_uint_be_bytes_id by assumption. reflexivity.
Qed.

Lemma broadcast_sent udp_port tcp_port oks msg dest :
  In (BroadcastSendto msg dest) (broadcast_offers udp_port tcp_port oks) ->
  dest = mkAddress "<broadcast>" 13117 /\
  pack_IbHH MAGIC_COOKIE OFFER_MSG_TYPE udp_port tcp_port = Some msg.
Proof.
  induction oks as [|ok oks IH]; [intros []|].
  cbn [broadcast_offers]. intros [Hin|Hin]%in_app_or; [|exact (IH Hin)].
  unfold broadcast_pass in Hin.
  destruct (pack_IbHH MAGIC_COOKIE OFFER_MSG_TYPE udp_port tcp_port) as [m|];
    [destruct ok|]; cbn in Hin;
    repeat match goal with
           | H : _ \/ _ |- _ => destruct H
           | H : False |- _ => destruct H
           end; try discriminate.
  match goal with H : BroadcastSendto _ _ = _ |- _ => injection H as <- <- end.
  auto.
Qed.

(** X6. An offer the broadcaster sends goes to the broadcast address on
    port 13117 and is 9 bytes long; and a listener that had seen no valid
    Offer before it returns, on receiving it (followed by any further
    bytes), the sender's host and exactly the UDP and TCP ports the
    server announced. *)
Theorem broadcast_offer_is_heard udp_port tcp_port oks msg dest :
  In (BroadcastSendto msg dest) (broadcast_offers udp_port tcp_port oks) ->
  dest = mkAddress "<broadcast>" 13117 /\
  len msg = 9 /\
  forall pre addr extra post,
    offers pre = [] ->
    wait_for_offer (pre ++ Datagram (msg ++ extra) addr :: post) =
    Returns (host addr, (udp_port, tcp_port)).
Proof.
  intros Hin. destruct (broadcast_sent _ _ _ _ _ Hin) as [-> Hpack].
  split; [reflexivity|].
  split; [unfold len;
          now rewrite (proj1 (offer_of_packed _ _ _ [] (mkAddress "" 0) Hpack))|].
  intros pre addr extra post Hpre.
  rewrite wait_for_offer_offers, offers_app, Hpre, offers_cons.
  rewrite (proj2 (offer_of_packed _ _ _ extra addr Hpack)). reflexivity.
Qed.

Lemma broadcast_offer_is_heard_witness :
  wait_for_offer
    [RecvfromRaises SocketTimeout;
     Datagram ["171"; "205"; "220"; "186"; "002"; "031"; "144"; "031"; "145"]%byte
       (mkAddress "10.0.0.2" 13117)] =
  Returns ("10.0.0.2"%string, (8080, 8081)).
Proof.
  destruct (broadcast_offer_is_heard 8080 8081 [false; true]
    ["171"; "205"; "220"; "186"; "002"; "031"; "144"; "031"; "145"]%byte
    (mkAddress "<broadcast>" 13117)) as (_ & _ & H).
  - vm_compute. auto.
  - exact (H [RecvfromRaises SocketTimeout] (mkAddress "10.0.0.2" 13117) [] []
             eq_refl).
Defined.

(** X7. The broadcaster sleeps one second at the end of every pass,
    whether the pass sent its offer or failed, and goes on: over any
    number of passes there are as many sleeps as passes, and, with ports
    that fit 16 bits, as many offers sent as passes whose [sendto]
    returned. With a port that does not fit, no offer is ever sent. *)
Theorem broadcaster_keeps_its_pace udp_port tcp_port oks :
  let acts := broadcast_offers udp_port tcp_port oks in
  List.length (List.filter is_sleep acts) = List.length oks /\
  (0 <= udp_port < 2 ^ 16 /\ 0 <= tcp_port < 2 ^ 16 ->
   List.length (List.filter is_sendto acts) =
   List.length (List.filter (fun ok => ok) oks)) /\
  (~ (0 <= udp_port < 2 ^ 16 /\ 0 <= tcp_port < 2 ^ 16) ->
   List.filter is_sendto acts = []).
Proof.
  cbv zeta.
  destruct (pack_IbHH MAGIC_COOKIE OFFER_MSG_TYPE udp_port tcp_port) as [m|] eqn:Hpack.
  - pose proof (pack_offer_inv _ _ _ Hpack) as (Hu & Ht & _).
    split; [|split].
    + induction oks as [|ok oks IH]; [reflexivity|].
      cbn [broadcast_offers]. unfold broadcast_pass. rewrite Hpack.
      rewrite List.filter_app, length_app, IH. destruct ok; reflexivity.
    + intros _. induction oks as [|ok oks IH]; [reflexivity|].
      cbn [broadcast_offers]. unfold broadcast_pass. rewrite Hpack.
      rewrite List.filter_app, length_app, IH. destruct ok; reflexivity.
    + tauto.
  - assert (Hout : ~ (0 <= udp_port < 2 ^ 16 /\ 0 <= tcp_port < 2 ^ 16)).
    { intros [Hu Ht]. unfold pack_IbHH in Hpack.
      rewrite (pack_unsigned_some 2 udp_port), (pack_unsigned_some 2 tcp_port) in Hpack
        by (change (2 ^ (8 * Z.of_nat 2)) with (2 ^ 16); assumption).
      discriminate. }
    split; [|split].
    + induction oks as [|ok oks IH]; [reflexivity|].
      cbn [broadcast_offers]. unfold broadcast_pass. rewrite Hpack.
      rewrite List.filter_app, length_app, IH. reflexivity.
    + tauto.
    + intros _. induction oks as [|ok oks IH]; [reflexivity|].
      cbn [broadcast_offers]. unfold broadcast_pass. rewrite Hpack.
      rewrite List.filter_app, IH. reflexivity.
Qed.

Lemma broadcaster_keeps_its_pace_witness :
  List.length (List.filter is_sendto (broadcast_offers 8080 8081 [true; false; true])) = 2%nat.
Proof.
  destruct (broadcaster_keeps_its_pace 8080 8081 [true; false; true]) as (_ & H & _).
  apply H. lia.
Defined.

(** ** From the offer to the transfers *)

Lemma threads_of_targets ip ports file_size tcp_count udp_count task :
  In task (threads_of ip ports file_size tcp_count udp_count) ->
  server_ip task = ip /\ size_requested task = file_size /\
  match kind task with
  | TcpTransfer => server_port task = snd ports /\ 1 <= transfer_num task <= tcp_count
  | UdpTransfer => server_port task = fst ports /\ 1 <= transfer_num task <= udp_count
  end.
Proof.
  unfold threads_of, tasks_for, range_count.
  intros [Hin|Hin]%in_app_or; apply in_map_iff in Hin as (i & <- & Hi);
    apply in_seq in Hi; cbn; repeat split; lia.
Qed.

Lemma run_speed_test_starts ip ports file_size tcp_count udp_count task :
  In (ThreadStart task) (run_speed_test ip ports file_size tcp_count udp_count) ->
  In task (threads_of ip ports file_size tcp_count udp_count).
Proof.
  unfold run_speed_test. cbv zeta.
  intros [Hin|Hin]%in_app_or; apply in_map_iff in Hin as (x & Hx & Hin).
  - injection Hx as ->. exact Hin.
  - discriminate.
Qed.

(** X8. One round of the client's main loop. Until a valid Offer has been
    received no thread is started. Once an offer of the broadcaster is
    received, every thread the round starts is aimed at the host the offer
    came from and asks for the configured size; the TCP transfers go to
    the TCP port the server announced and the UDP transfers to the UDP
    port, numbered from 1 to their count. *)
Theorem discovery_round_targets file_size tcp_count udp_count :
  (forall evs, offers evs = [] ->
     discovery_round file_size tcp_count udp_count evs = Blocked) /\
  (forall udp_port tcp_port oks msg dest pre addr post,
     In (BroadcastSendto msg dest) (broadcast_offers udp_port tcp_port oks) ->
     offers pre = [] ->
     exists ops,
       discovery_round file_size tcp_count udp_count
         (pre ++ Datagram msg addr :: post) = Returns ops /\
       forall task, In (ThreadStart task) ops ->
         server_ip task = host addr /\ size_requested task = file_size /\
         match kind task with
         | TcpTransfer =>
             server_port task = tcp_port /\ 1 <= transfer_num task <= tcp_count
         | UdpTransfer =>
             server_port task = udp_port /\ 1 <= transfer_num task <= udp_count
         end).
Proof.
  split.
  - intros evs Hnone. unfold discovery_round.
    rewrite wait_for_offer_offers, Hnone. reflexivity.
  - intros udp_port tcp_port oks msg dest pre addr post Hin Hpre.
    destruct (broadcast_sent _ _ _ _ _ Hin) as [_ Hpack].
    unfold discovery_round.
    rewrite wait_for_offer_offers, offers_app, Hpre, offers_cons.
    pose proof (proj2 (offer_of_packed _ _ _ [] addr Hpack)) as Hoffer.
    rewrite app_nil_r in Hoffer. rewrite Hoffer. cbn [app outcome_bind].
    eexists. split; [reflexivity|]. intros task Htask.
    apply run_speed_test_starts, threads_of_targets in Htask. exact Htask.
Qed.

Lemma discovery_round_targets_witness :
  let offer := ["171"; "205"; "220"; "186"; "002"; "031"; "144"; "031"; "145"]%byte in
  exists ops,
    discovery_round 1024 1 1
      [RecvfromRaises SocketTimeout; Datagram offer (mkAddress "10.0.0.2" 13117)]
    = Returns ops /\
    forall task, In (ThreadStart task) ops ->
      server_ip task = "10.0.0.2"%string /\
      match kind task with
      | TcpTransfer => server_port task = 8081
      | UdpTransfer => server_port task = 8080
      end.
Proof.
  cbv zeta.
  destruct (discovery_round_targets 1024 1 1) as [_ H].
  destruct (H 8080 8081 [true]
              ["171"; "205"; "220"; "186"; "002"; "031"; "144"; "031"; "145"]%byte
              (mkAddress "<broadcast>" 13117) [RecvfromRaises SocketTimeout]
              (mkAddress "10.0.0.2" 13117) [])
    as (ops & Hrun & Htasks).
  - vm_compute. auto.
  - reflexivity.
  - exists ops. split; [exact Hrun|]. intros task Htask.
    destruct (Htasks task Htask) as (Hip & _ & Hport).
    split; [exact Hip|]. destruct (kind task); tauto.
Defined.

(** ** Requests, from the client to the server *)

Lemma pack_request_inv file_size req :
  pack_IbQ MAGIC_COOKIE REQUEST_MSG_TYPE file_size = Some req ->
  0 <= file_size < 2 ^ 64 /\
  req = be_bytes 4 MAGIC_COOKIE ++ [byte_of_Z REQUEST_MSG_TYPE] ++ be_bytes 8 file_size.
Proof.
  unfold pack_IbQ. change (pack_unsigned 4 MAGIC_COOKIE) with (Some (be_bytes 4 MAGIC_COOKIE)).
  change (pack_b REQUEST_MSG_TYPE) with (Some [byte_of_Z REQUEST_MSG_TYPE]).
  cbn [mbind option_bind].
  destruct (pack_unsigned 8 file_size) as [bf|] eqn:Ef; [|discriminate].
  cbn [mbind option_bind]. intros [= <-].
  apply pack_unsigned_inv in Ef as [Hf ->].
  change (2 ^ (8 * Z.of_nat 8)) with (2 ^ 64) in *. auto.
Qed.

Lemma request_of_packed file_size req addr :
  pack_IbQ MAGIC_COOKIE REQUEST_MSG_TYPE file_size = Some req ->
  List.length req = 13%nat /\ request_of (Datagram req addr) = Some (addr, file_size).
Proof.
  intros Hpack. apply pack_request_inv in Hpack as (Hf & ->).
  split; [reflexivity|].
  cbn [request_of be_bytes app]. unfold well_formed, magic_field, type_byte.
  cbn [slice skipn firstn Nat.sub nth andb].
  change (be_uint [byte_of_Z (file_size ≫ (8 * Z.of_nat 7));
                   byte_of_Z (file_size ≫ (8 * Z.of_nat 6));
                   byte_of_Z (file_size ≫ (8 * Z.of_nat 5));
                   byte_of_Z (file_size ≫ (8 * Z.of_nat 4));
                   byte_of_Z (file_size ≫ (8 * Z.of_nat 3));
                   byte_of_Z (file_size ≫ (8 * Z.of_nat 2));
                   byte_of_Z (file_size ≫ (8 * Z.of_nat 1));
                   byte_of_Z (file_size ≫ (8 * Z.of_nat 0))])
    with (be_uint (be_bytes 8 file_size)).
  rewrite be_uint_be_bytes_id by assumption. reflexivity.
Qed.

Lemma spawned_app a1 a2 : spawned (a1 ++ a2) = spawned a1 ++ spawned a2.
Proof. unfold spawned. apply omap_app. Qed.

Lemma handle_udp_requests_spawned evs :
  spawned (handle_udp_requests evs) = omap request_of evs.
Proof.
  induction evs as [|r evs IH]; [reflexivity|].
  cbn [handle_udp_requests]. rewrite spawned_app, IH.
  change (omap request_of (r :: evs))
    with (match request_of r with
          | Some x => x :: omap request_of evs
          | None => omap request_of evs
          end).
  destruct r as [data addr|e]; [|reflexivity].
  rewrite udp_request_pass_datagram.
  destruct (request_of (Datagram data addr)) as [[a n]|]; reflexivity.
Qed.

(** X9. The handlers the server's UDP receiver spawns are the valid
    Requests among the datagrams it received, one handler for each, in
    the order of arrival, with the sender's address and the file size of
    the Request; nothing is remembered between datagrams, so the same
    datagrams received again spawn the same handlers again. *)
Theorem udp_receiver_spawns_per_request evs :
  spawned (handle_udp_requests evs) = omap request_of evs /\
  forall again,
    spawned (handle_udp_requests (evs ++ again)) =
    spawned (handle_udp_requests evs) ++ omap request_of again.
Proof.
  split; [apply handle_udp_requests_spawned|].
  intros again. rewrite !handle_udp_requests_spawned. apply omap_app.
Qed.

(** X10. The Request the client packs for a file size that fits 64 bits
    is 13 bytes long and makes the server spawn one handler, for the
    sender's address and that same file size. For a file size that does
    not fit, [struct.pack] raises and the UDP transfer ends in its error
    branch whatever the network would have delivered. *)
Theorem udp_request_round_trip file_size :
  (0 <= file_size < 2 ^ 64 ->
   exists req,
     pack_IbQ MAGIC_COOKIE REQUEST_MSG_TYPE file_size = Some req /\
     len req = 13 /\
     forall addr rest,
       spawned (handle_udp_requests (Datagram req addr :: rest)) =
       (addr, file_size) :: spawned (handle_udp_requests rest)) /\
  (~ (0 <= file_size < 2 ^ 64) ->
   forall transfer_num start_time first_time ps end_time,
     udp_transfer file_size transfer_num start_time first_time ps end_time =
     Raises StructError).
Proof.
  destruct (pack_IbQ MAGIC_COOKIE REQUEST_MSG_TYPE file_size) as [req|] eqn:Hpack.
  - pose proof (pack_request_inv _ _ Hpack) as [Hf _]. split; [|tauto].
    intros _. exists req. split; [reflexivity|].
    split; [unfold len; now rewrite (proj1 (request_of_packed _ _ (mkAddress "" 0) Hpack))|].
    intros addr rest. rewrite !handle_udp_requests_spawned.
    change (omap request_of (Datagram req addr :: rest))
      with (match request_of (Datagram req addr) with
            | Some x => x :: omap request_of rest
            | None => omap request_of rest
            end).
    rewrite (proj2 (request_of_packed _ _ addr Hpack)). reflexivity.
  - split.
    + intros Hf. unfold pack_IbQ in Hpack.
      rewrite (pack_unsigned_some 8 file_size) in Hpack
        by (change (2 ^ (8 * Z.of_nat 8)) with (2 ^ 64); assumption).
      discriminate.
    + intros _ transfer_num start_time first_time ps end_time.
      unfold udp_transfer. rewrite Hpack. reflexivity.
Qed.

Lemma udp_request_round_trip_witness :
  udp_transfer (2 ^ 64) 1 0 0 [mkPass 2 (RecvfromRaises SocketTimeout) 0] 2 =
  Raises StructError.
Proof.
  destruct (udp_request_round_trip (2 ^ 64)) as [_ H].
  apply H. lia.
Defined.

(** ** The configuration *)








(** ** What the UDP receive loop has counted when it ends *)

Lemma udp_receive_split ps' : forall st st',
  udp_receive st ps' = Returns st' ->
  exists ps q post,
    ps' = ps ++ q :: post /\ udp_state_after st ps = Some st' /\
    udp_pass st' q = Break.
Proof.
  induction ps' as [|p ps' IH]; intros st st' Hrun; [discriminate|].
  cbn [udp_receive] in Hrun.
  destruct (udp_pass st p) as [|st1|e] eqn:Hpass; try discriminate.
  - injection Hrun as <-. exists [], p, ps'. auto.
  - destruct (IH st1 st' Hrun) as (ps & q & post & -> & Hafter & Hq).
    exists (p :: ps), q, post. cbn [udp_state_after]. rewrite Hpass. auto.
Qed.

Lemma udp_receive_app ps : forall st st' rest,
  udp_state_after st ps = Some st' ->
  udp_receive st (ps ++ rest) = udp_receive st' rest.
Proof.
  induction ps as [|p ps IH]; intros st st' rest Hafter.
  - injection Hafter as <-. reflexivity.
  - cbn [udp_state_after] in Hafter. cbn [app udp_receive].
    destruct (udp_pass st p) as [|st1|e]; try discriminate.
    exact (IH st1 st' rest Hafter).
Qed.

Lemma sum_Z_lens_nonneg (vs : list (Z * Z * list byte)) :
  0 <= sum_Z ((fun v : Z * Z * list byte => len v.2) <$> vs).
Proof.
  induction vs as [|v vs IH]; [cbn; lia|].
  rewrite fmap_cons. cbn [sum_Z fold_right].
  fold (sum_Z ((fun v : Z * Z * list byte => len v.2) <$> vs)).
  unfold len at 1. lia.
Qed.

Lemma udp_state_after_counts ps : forall st st',
  udp_state_after st ps = Some st' ->
  segments_received st' = list_to_set (segment_numbers ps) ∪ segments_received st /\
  total_segments st' =
    match total_segments st with
    | Some t => Some t
    | None => head (declared_totals ps)
    end /\
  last_packet_time st' = last_arrival (last_packet_time st) ps /\
  bytes_received st <= bytes_received st' <= bytes_received st + payload_bytes ps /\
  (NoDup (segment_numbers ps) ->
   (forall x, x ∈ segment_numbers ps -> x ∉ segments_received st) ->
   bytes_received st' = bytes_received st + payload_bytes ps).
Proof.
  unfold segment_numbers, declared_totals, payload_bytes, last_arrival.
  induction ps as [|p ps IH]; intros st st' Hafter.
  - injection Hafter as <-. cbn.
    repeat split; try lia; [set_solver | destruct (total_segments st); reflexivity].
  - cbn [udp_state_after] in Hafter.
    destruct (udp_pass st p) as [|st1|e] eqn:Hpass; try discriminate.
    destruct (IH st1 st' Hafter) as (Hsegs & Htot & Hlast & Hbytes & Hnodup).
    rewrite (udp_pass_total st p st1 Hpass) in Htot.
    rewrite (udp_pass_arrival st p st1 Hpass) in Hlast.
    rewrite segments_in_cons. cbn [fold_left].
    pose proof (sum_Z_lens_nonneg (segments_in ps)) as Hnn.
    destruct (segment_in p) as [[[total seg] payload]|] eqn:Hseg.
    + pose proof (udp_pass_segment st p st1 total seg payload Hpass Hseg) as Hcnt.
      rewrite !fmap_cons. cbn [sum_Z fold_right head fst snd].
      fold (sum_Z ((fun v : Z * Z * list byte => len v.2) <$> segments_in ps)).
      assert (Hpl : 0 <= len payload) by (unfold len; lia).
      split; [|split; [|split; [exact Hlast|split]]].
      * rewrite Hsegs, list_to_set_cons.
        destruct (decide (seg ∈ segments_received st)) as [Hin|Hin];
          destruct Hcnt as [_ ->]; set_solver.
      * rewrite Htot. destruct (total_segments st); reflexivity.
      * destruct (decide (seg ∈ segments_received st)); destruct Hcnt as [Hb _]; lia.
      * intros Hnd Hfresh. apply NoDup_cons in Hnd as [Hseg' Hnd].
        destruct (decide (seg ∈ segments_received st)) as [Hin|Hin].
        { exfalso. apply (Hfresh seg); [left | exact Hin]. }
        destruct Hcnt as [Hb Hs]. rewrite Hnodup; [lia | exact Hnd |].
        intros x Hx. rewrite Hs. intros [->%elem_of_singleton|Hin']%elem_of_union.
        -- exact (Hseg' Hx).
        -- apply (Hfresh x); [right; exact Hx | exact Hin'].
    + destruct (udp_pass_no_segment st p st1 Hpass Hseg) as [Hb Hs].
      rewrite Hb, Hs in *.
      split; [exact Hsegs|]. split; [|split; [exact Hlast|split; [exact Hbytes|exact Hnodup]]].
      rewrite Htot. destruct (total_segments st); reflexivity.
Qed.

(** X12. When the receive loop of a UDP transfer ends, it ends at a pass
    it found quiet, after going through the passes before it; the set of
    segment numbers then holds exactly the numbers of the Payload
    segments received, the total is the one the first of them declared,
    and the byte count is at most the sum of their payload lengths, and
    equal to it when no number came twice. *)
Theorem udp_loop_counts t ps' st :
  udp_receive (initial_state t) ps' = Returns st ->
  exists ps q post,
    ps' = ps ++ q :: post /\
    Qle_bool (now q - last_arrival t ps) 1 = false /\
    segments_received st = list_to_set (segment_numbers ps) /\
    total_segments st = head (declared_totals ps) /\
    last_packet_time st = last_arrival t ps /\
    0 <= bytes_received st <= payload_bytes ps /\
    (NoDup (segment_numbers ps) ->
     bytes_received st = payload_bytes ps /\
     size (segments_received st) = List.length (segments_in ps)).
Proof.
  intros Hrun.
  destruct (udp_receive_split ps' _ _ Hrun) as (ps & q & post & -> & Hafter & Hq).
  destruct (udp_state_after_counts ps _ _ Hafter) as (Hsegs & Htot & Hlast & Hb & Hnd).
  cbn [initial_state segments_received total_segments last_packet_time bytes_received] in *.
  exists ps, q, post. split; [reflexivity|]. split.
  { destruct (udp_pass_cases st q) as [[Hquiet _]|[_ Hc]].
    - rewrite <- Hlast. exact Hquiet.
    - rewrite Hq in Hc. destruct (received q) as [data addr|[]]; discriminate. }
  split; [rewrite Hsegs; set_solver|]. split; [exact Htot|].
  split; [exact Hlast|]. split; [lia|].
  intros Hnodup. split.
  - rewrite Hnd; [lia | exact Hnodup | set_solver].
  - rewrite Hsegs, union_empty_r_L, size_list_to_set by exact Hnodup.
    unfold segment_numbers. apply length_fmap.
Qed.

Lemma udp_loop_counts_witness :
  let addr := mkAddress "10.0.0.2" 5001 in
  let ps :=
    [mkPass 0 (Datagram (payload_header 2 0 ++ ["000"]%byte) addr) (1 # 10);
     mkPass (2 # 10) (Datagram (payload_header 2 0 ++ ["000"]%byte) addr) (3 # 10);
     mkPass 2 (RecvfromRaises SocketTimeout) 2] in
  exists st, udp_receive (initial_state 0) ps = Returns st /\
             total_segments st = Some 2 /\ bytes_received st = 1.
Proof.
  cbv zeta. eexists. split; [vm_compute; reflexivity|].
  match goal with
  | |- total_segments ?st = _ /\ _ =>
      destruct (udp_loop_counts 0
        [mkPass 0 (Datagram (payload_header 2 0 ++ ["000"]%byte)
                     (mkAddress "10.0.0.2" 5001)) (1 # 10);
         mkPass (2 # 10) (Datagram (payload_header 2 0 ++ ["000"]%byte)
                            (mkAddress "10.0.0.2" 5001)) (3 # 10);
         mkPass 2 (RecvfromRaises SocketTimeout) 2] st)
        as (ps & q & post & _)
  end.
  - vm_compute. reflexivity.
  - split; vm_compute; reflexivity.
Defined.

(** ** A whole UDP exchange *)

Lemma segment_of_header total seg payload :
  0 <= total < 2 ^ 64 -> 0 <= seg < 2 ^ 64 ->
  segment_of (payload_header total seg ++ payload) = Some (total, seg, payload).
Proof.
  intros Ht Hs. unfold payload_header. cbn [be_bytes app].
  unfold segment_of, well_formed, magic_field, type_byte.
  replace (21 <=? len _) with true
    by (symmetry; apply Z.leb_le; unfold len; cbn [List.length]; lia).
  cbn [slice skipn firstn Nat.sub nth andb].
  change (firstn 0 payload) with (@nil byte).
  change (Some (be_uint (be_bytes 8 total), be_uint (be_bytes 8 seg), payload) =
          Some (total, seg, payload)).
  rewrite (be_uint_be_bytes_id 8 total), (be_uint_be_bytes_id 8 seg) by assumption.
  reflexivity.
Qed.

Lemma sent_segments_received rnd addr src fs T n : forall seg drawn ps,
  0 <= T < 2 ^ 64 -> 0 <= seg -> seg + Z.of_nat n <= T ->
  received <$> ps =
    (fun c => Datagram (packet c) src)
      <$> calls (send_segments rnd addr fs 1024 T n seg drawn) ->
  segment_numbers ps = seqZ seg (Z.of_nat n) /\
  declared_totals ps = replicate n T /\
  payload_bytes ps =
    sum_Z (List.map (fun c => len (payload_of c))
             (calls (send_segments rnd addr fs 1024 T n seg drawn))) /\
  no_socket_error ps.
Proof.
  unfold segment_numbers, declared_totals, payload_bytes, no_socket_error.
  induction n as [|n IH]; intros seg drawn ps HT Hseg Hle Hps.
  - cbn in Hps. apply fmap_nil_inv in Hps as ->. cbn. repeat split. constructor.
  - rewrite send_segments_S in Hps |- * by lia. cbv zeta in Hps |- *.
    cbn [calls] in Hps |- *. rewrite fmap_cons in Hps.
    destruct ps as [|p ps]; [discriminate|]. rewrite fmap_cons in Hps.
    injection Hps as Hp Hps.
    destruct (IH (seg + 1) _ ps HT ltac:(lia) ltac:(lia) Hps)
      as (Hnums & Htots & Hbytes & Hok).
    assert (Hsegp : segment_in p =
              Some (T, seg, random_bytes rnd drawn (Z.min 1024 (fs - seg * 1024)))).
    { unfold segment_in. rewrite Hp. cbn [packet].
      apply segment_of_header; lia. }
    rewrite segments_in_cons, Hsegp, !fmap_cons. cbn [fst snd replicate].
    split; [|split; [|split]].
    + rewrite Hnums, (seqZ_cons seg) by lia. f_equal. f_equal; lia.
    + rewrite Htots. reflexivity.
    + change (len (random_bytes rnd drawn (Z.min 1024 (fs - seg * 1024)))
              + sum_Z ((fun v : Z * Z * list byte => len v.2) <$> segments_in ps) =
              len (skipn 21 (payload_header T seg
                             ++ random_bytes rnd drawn (Z.min 1024 (fs - seg * 1024))))
              + sum_Z (List.map (fun c => len (payload_of c))
                         (calls (send_segments rnd addr fs 1024 T n (seg + 1)
                                   (drawn + List.length
                                      (random_bytes rnd drawn
                                         (Z.min 1024 (fs - seg * 1024)))))))).
      rewrite payload_after_header, Hbytes. reflexivity.
    + constructor; [|exact Hok]. intros e He. rewrite Hp in He. discriminate.
Qed.

Lemma udp_state_after_quiet ps : forall st,
  first_quiet_pass (last_packet_time st) ps = None ->
  no_socket_error ps ->
  exists st', udp_state_after st ps = Some st'.
Proof.
  induction ps as [|p ps IH]; intros st Hquiet Hok; [eauto|].
  apply Forall_cons in Hok as [Hp Hps]. cbn [first_quiet_pass] in Hquiet.
  destruct (Qle_bool (now p - last_packet_time st) 1) eqn:Hfresh; [|discriminate].
  destruct (udp_pass_continues st p Hfresh Hp) as (st1 & Hpass & Hlast).
  cbn [udp_state_after]. rewrite Hpass. apply IH; [|exact Hps].
  rewrite Hlast.
  destruct (first_quiet_pass (arrival (last_packet_time st) p) ps);
    [discriminate | reflexivity].
Qed.

Lemma rate_full T : 0 < T -> (inject_Z T / inject_Z T * 100 == 100)%Q.
Proof.
  intros HT. destruct T as [|p|p]; try lia.
  unfold Qeq, Qdiv, Qmult, Qinv, inject_Z. cbn. lia.
Qed.

(** X13. A whole UDP exchange without loss. When the datagrams the
    server's handler sends for a positive file size all reach the client
    in order, each within a second of the one before, and then nothing
    comes for more than a second, the client's loop ends having counted
    exactly the file size in bytes, with the total learned equal to
    [ceil(file_size / 1024)], every segment number from 0 up to it seen,
    and a success rate of 100. *)
Theorem udp_exchange_complete rnd addr src file_size t ps q post :
  0 < file_size < 2 ^ 64 ->
  received <$> ps =
    (fun c => Datagram (packet c) src) <$> calls (handle_udp_client rnd addr file_size) ->
  first_quiet_pass t ps = None ->
  Qle_bool (now q - last_arrival t ps) 1 = false ->
  exists st rate,
    udp_receive (initial_state t) (ps ++ q :: post) = Returns st /\
    bytes_received st = file_size /\
    total_segments st = Some (ceil_div file_size 1024) /\
    segments_received st = list_to_set (seqZ 0 (ceil_div file_size 1024)) /\
    success_rate (segments_received st) (total_segments st) = Returns rate /\
    (rate == 100)%Q.
Proof.
  intros Hfs Hps Hquiet Hq.
  destruct (total_segments_bounds file_size) as (HT0 & HTb & HTc); [lia|].
  unfold handle_udp_client in Hps. cbv zeta in Hps. rewrite HTc in *. clear HTc.
  set (T := ceil_div file_size 1024) in *.
  assert (HT : 0 <= T < 2 ^ 64) by lia.
  assert (HTpos : 0 < T) by lia.
  destruct (sent_segments_received rnd addr src file_size T (range_count T) 0 0%nat ps
              HT ltac:(lia) ltac:(unfold range_count; lia) Hps)
    as (Hnums & Htots & Hbytes & Hok).
  rewrite (send_segments_sum rnd addr file_size T HT HTb) in Hbytes
    by (unfold range_count; lia).
  unfold range_count in Hnums, Htots. rewrite Z2Nat.id in Hnums by lia.
  destruct (udp_state_after_quiet ps (initial_state t) Hquiet Hok) as [st Hafter].
  destruct (udp_state_after_counts ps _ _ Hafter) as (Hsegs & Htot & Hlast & _ & Hnd).
  cbn [initial_state segments_received total_segments last_packet_time bytes_received] in *.
  rewrite Hnums in Hsegs, Hnd. rewrite union_empty_r_L in Hsegs.
  assert (Hb : bytes_received st = file_size).
  { rewrite Hnd; [lia | apply NoDup_seqZ | set_solver]. }
  assert (Htotal : total_segments st = Some T).
  { rewrite Htot, Htots. destruct (Z.to_nat T) eqn:En; [lia | reflexivity]. }
  assert (Hbreak : udp_pass st q = Break).
  { unfold udp_pass. rewrite Hlast, Hq. reflexivity. }
  exists st, (inject_Z T / inject_Z T * 100)%Q.
  split; [rewrite (udp_receive_app ps _ st _ Hafter); cbn [udp_receive];
          rewrite Hbreak; reflexivity|].
  split; [exact Hb|]. split; [exact Htotal|]. split; [exact Hsegs|].
  split; [|apply rate_full; exact HTpos].
  rewrite Htotal, Hsegs. unfold success_rate.
  destruct (Z.eqb_spec T 0); [lia|].
  rewrite size_list_to_set by apply NoDup_seqZ. rewrite length_seqZ, Z2Nat.id by lia.
  unfold truediv. destruct (Qeq_bool (inject_Z T) 0) eqn:Hz; [|reflexivity].
  apply Qeq_bool_eq in Hz. unfold Qeq, inject_Z in Hz. cbn in Hz. lia.
Qed.

Lemma udp_exchange_complete_witness :
  let rnd := fun _ : nat => "000"%byte in
  let src := mkAddress "10.0.0.2" 5001 in
  let ps := (fun c => mkPass 0 (Datagram (packet c) src) 0)
              <$> calls (handle_udp_client rnd (mkAddress "10.0.0.7" 6000) 1500) in
  exists st,
    udp_receive (initial_state 0) (ps ++ [mkPass 2 (RecvfromRaises SocketTimeout) 0])
    = Returns st /\
    bytes_received st = 1500 /\ total_segments st = Some 2.
Proof.
  cbv zeta.
  destruct (udp_exchange_complete (fun _ => "000"%byte) (mkAddress "10.0.0.7" 6000)
              (mkAddress "10.0.0.2" 5001) 1500 0
              ((fun c => mkPass 0 (Datagram (packet c) (mkAddress "10.0.0.2" 5001)) 0)
                 <$> calls (handle_udp_client (fun _ => "000"%byte)
                              (mkAddress "10.0.0.7" 6000) 1500))
              (mkPass 2 (RecvfromRaises SocketTimeout) 0) [])
    as (st & rate & Hrun & Hb & Htot & _).
  - lia.
  - rewrite <- list_fmap_compose. reflexivity.
  - vm_compute. reflexivity.
  - vm_compute. reflexivity.
  - exists st. split; [exact Hrun|]. split; [exact Hb | exact Htot].
Defined.

(** ** The report of a UDP transfer *)

Lemma last_arrival_ge start ps : forall t,
  (start <= t)%Q ->
  (forall p, In p ps -> (start <= stamp p)%Q) ->
  (start <= last_arrival t ps)%Q.
Proof.
  unfold last_arrival.
  induction ps as [|p ps IH]; intros t Ht Hps; [exact Ht|].
  cbn [fold_left]. apply IH.
  - unfold arrival. destruct (received p); [apply Hps; left; reflexivity | exact Ht].
  - intros p' Hp'. apply Hps. right. exact Hp'.
Qed.

Lemma pack_unsigned_some_request file_size :
  0 <= file_size < 2 ^ 64 ->
  pack_IbQ MAGIC_COOKIE REQUEST_MSG_TYPE file_size =
  Some (be_bytes 4 MAGIC_COOKIE ++ [byte_of_Z REQUEST_MSG_TYPE] ++ be_bytes 8 file_size).
Proof.
  intros Hfs. unfold pack_IbQ.
  rewrite (pack_unsigned_some 8 file_size)
    by (change (2 ^ (8 * Z.of_nat 8)) with (2 ^ 64); assumption).
  reflexivity.
Qed.

(** X14. With a clock that does not go backwards and a file size that
    fits 64 bits, a UDP transfer whose receive loop has ended always
    prints a report: its duration, from sending the request to leaving the
    loop, is more than one second, so the speed is never divided by
    zero. *)
Theorem udp_transfer_reports file_size transfer_num start_time first_time ps end_time st :
  0 <= file_size < 2 ^ 64 ->
  (start_time <= first_time)%Q ->
  (forall p, In p ps -> (start_time <= stamp p)%Q /\ (now p <= end_time)%Q) ->
  udp_receive (initial_state first_time) ps = Returns st ->
  exists rep,
    udp_transfer file_size transfer_num start_time first_time ps end_time = Returns rep /\
    udp_duration rep = (end_time - start_time)%Q /\
    (1 < udp_duration rep)%Q.
Proof.
  intros Hfs Hfirst Hclock Hrun.
  destruct (udp_receive_split ps _ _ Hrun) as (pre & q & post & -> & Hafter & Hq).
  destruct (udp_state_after_counts pre _ _ Hafter) as (_ & _ & Hlast & _).
  cbn [initial_state last_packet_time] in Hlast.
  assert (Hquiet : Qle_bool (now q - last_packet_time st) 1 = false).
  { destruct (udp_pass_cases st q) as [[Hquiet _]|[_ Hc]]; [exact Hquiet|].
    rewrite Hq in Hc. destruct (received q) as [data addr|[]]; discriminate. }
  assert (Hgap : (1 < now q - last_packet_time st)%Q).
  { apply Qnot_le_lt. intros Hle. apply Qle_bool_iff in Hle. congruence. }
  assert (Hge : (start_time <= last_packet_time st)%Q).
  { rewrite Hlast. apply last_arrival_ge; [exact Hfirst|].
    intros p Hp. apply Hclock, in_or_app. left. exact Hp. }
  assert (Hend : (now q <= end_time)%Q).
  { apply Hclock, in_or_app. right. left. reflexivity. }
  assert (Hdur : (1 < end_time - start_time)%Q) by lra.
  unfold udp_transfer.
  rewrite (pack_unsigned_some_request file_size Hfs), Hrun. cbn [outcome_bind].
  unfold udp_summary, truediv.
  destruct (Qeq_bool ((end_time - start_time) * 1000000) 0) eqn:Hz.
  { apply Qeq_bool_iff in Hz. lra. }
  cbn [outcome_bind].
  destruct (success_rate_total (segments_received st) (total_segments st)) as [r ->].
  cbn [outcome_bind]. eexists. split; [reflexivity|]. split; [reflexivity|exact Hdur].
Qed.

Lemma udp_transfer_reports_witness :
  exists rep,
    udp_transfer 1024 1 0 0 [mkPass (3 # 2) (RecvfromRaises SocketTimeout) 0] (3 # 2)
    = Returns rep /\ (1 < udp_duration rep)%Q.
Proof.
  destruct (udp_transfer_reports 1024 1 0 0
              [mkPass (3 # 2) (RecvfromRaises SocketTimeout) 0] (3 # 2)
              (initial_state 0)) as (rep & Hrun & _ & Hdur).
  - lia.
  - discriminate.
  - intros p [<-|[]]. split; discriminate.
  - reflexivity.
  - exists rep. split; [exact Hrun | exact Hdur].
Defined.

(** ** The size of the datagrams the server sends *)

Lemma send_segments_sizes rnd addr fs T n : forall seg drawn,
  0 <= T < 2 ^ 64 -> 0 <= seg -> seg + Z.of_nat n <= T ->
  Forall (fun c => dest c = addr /\
                   len (packet c) = 21 + len (payload_of c) /\
                   0 <= len (payload_of c) <= 1024)
    (calls (send_segments rnd addr fs 1024 T n seg drawn)).
Proof.
  induction n as [|n IH]; intros seg drawn HT Hseg Hle; [constructor|].
  rewrite send_segments_S by lia. cbv zeta. cbn [calls].
  constructor; [|apply IH; lia].
  cbn [dest packet]. unfold payload_of. cbn [packet].
  rewrite payload_after_header. split; [reflexivity|].
  pose proof (random_bytes_len rnd drawn (Z.min 1024 (fs - seg * 1024))) as Hr.
  unfold len in *. rewrite length_app.
  change (List.length (payload_header T seg)) with 21%nat. lia.
Qed.

(** X15. Every datagram the UDP handler sends goes to the requester and
    is its 21 header bytes followed by at most 1024 payload bytes, 1045
    bytes at most: less than the 2048 the client asks [recvfrom] for. *)
Theorem udp_handler_datagram_sizes rnd addr file_size c :
  0 <= file_size < 2 ^ 64 ->
  In c (calls (handle_udp_client rnd addr file_size)) ->
  dest c = addr /\
  len (packet c) = 21 + len (payload_of c) /\
  21 <= len (packet c) <= 1045 /\ len (packet c) < 2048.
Proof.
  intros Hfs Hin.
  destruct (total_segments_bounds file_size) as (HT0 & HTb & HTc); [lia|].
  unfold handle_udp_client in Hin. cbv zeta in Hin.
  pose proof (send_segments_sizes rnd addr file_size
                ((file_size + 1024 - 1) / 1024)
                (range_count ((file_size + 1024 - 1) / 1024)) 0 0%nat
                ltac:(lia) ltac:(lia) ltac:(unfold range_count; lia)) as Hall.
  rewrite List.Forall_forall in Hall. destruct (Hall c Hin) as (Hd & Hl & Hp).
  split; [exact Hd|]. split; [exact Hl|]. lia.
Qed.

Lemma udp_handler_datagram_sizes_witness :
  Forall (fun c => len (packet c) < 2048)
    (calls (handle_udp_client (fun _ => "000"%byte) (mkAddress "10.0.0.7" 6000) 1500)).
Proof.
  apply List.Forall_forall. intros c Hin.
  apply (udp_handler_datagram_sizes (fun _ => "000"%byte)
           (mkAddress "10.0.0.7" 6000) 1500 c ltac:(lia) Hin).
Defined.
